(** * Fuzzy controller of [fuzzy.py]: a shallow embedding

    The module [fuzzy.py] implements Mamdani inference for one degree of
    freedom: membership curves are sampled over integer-stepped domains,
    two crisp inputs are fuzzified, a 5x5 matrix of rule strengths is
    built with [min], five output strengths are aggregated with [max]
    through a hard-coded rule table, the output curves are clipped and
    fused, and the result is defuzzified.

    Numbers.  Python floats are modelled by the rationals [Q]: the
    functions of this module only compare, select and copy degrees
    ([min], [max], [np.fmin], [np.fmax]), and on finite floats these
    operations coincide with the same operations on the rationals the
    floats denote.  Rounding is not modelled.

    Exceptions.  A Python call either returns or raises; [outcome A] is
    the corresponding sum and every indexing operation of the source is
    written with its out-of-range behaviour. *)

From Stdlib Require Import QArith Qminmax Qround Lqa Sorted.
From stdpp Require Import base option list strings gmap.

Open Scope Q_scope.

(** ** Exceptions and the outcome monad *)

Inductive exn : Set :=
  | IndexError
  | KeyError
  | InvalidShapeParameters
  | DegenerateAggregate
  | LibraryError (msg : string).

Inductive outcome (A : Type) : Type :=
  | Ok (a : A)
  | Raise (e : exn).

Arguments Ok {A} a.
Arguments Raise {A} e.

#[global] Instance outcome_ret : MRet outcome := fun _ a => Ok a.

#[global] Instance outcome_bind : MBind outcome := fun _ _ f m =>
  match m with
  | Ok a => f a
  | Raise e => Raise e
  end.

#[global] Instance outcome_fmap : FMap outcome := fun _ _ f m =>
  match m with
  | Ok a => Ok (f a)
  | Raise e => Raise e
  end.

(** [l[i]] on a Python list or a numpy array, for a non-negative literal
    or loop index [i]. *)
Definition index {A} (l : list A) (i : nat) : outcome A :=
  match l !! i with
  | Some a => Ok a
  | None => Raise IndexError
  end.

(** Left-to-right evaluation of a list of calls, stopping at the first
    exception: the body of a list comprehension. *)
Fixpoint comprehension {A B} (f : A -> outcome B) (l : list A) : outcome (list B) :=
  match l with
  | [] => Ok []
  | a :: l' =>
      b ← f a;
      bs ← comprehension f l';
      Ok (b :: bs)
  end.

(** ** Comparisons of degrees *)

Definition Qltb (x y : Q) : bool := negb (Qle_bool y x).

(** The builtin [min(a, b)]: the first argument is kept unless the second
    is strictly smaller. *)
Definition py_min (a b : Q) : Q := if Qltb b a then b else a.

(** The builtin [max(a0, a1, ..., an)]: the running maximum is replaced
    only by a strictly larger item. *)
Definition max_step (m item : Q) : Q := if Qltb m item then item else m.

Definition py_max (a0 : Q) (rest : list Q) : Q := fold_left max_step rest a0.

(** [np.fmin(s, arr)] with a scalar first argument: the element-wise
    minimum, a new array. *)
Definition fmin2 (x y : Q) : Q := if Qle_bool x y then x else y.

Definition np_fmin (s : Q) (arr : list Q) : list Q := fmin2 s <$> arr.

(** [np.fmax(xs, ys)] on two one-dimensional arrays: element-wise maximum,
    a new array.  Arrays of equal length are combined position by
    position, an array of length one is broadcast against the other, and
    any other pair of shapes is rejected by numpy. *)
Definition fmax2 (x y : Q) : Q := if Qle_bool y x then x else y.

Definition np_fmax (xs ys : list Q) : outcome (list Q) :=
  if decide (length xs = length ys) then Ok (zip_with fmax2 xs ys)
  else match xs, ys with
       | [x], _ => Ok (fmax2 x <$> ys)
       | _, [y] => Ok ((fun x => fmax2 x y) <$> xs)
       | _, _ => Raise (LibraryError "operands could not be broadcast together")
       end.

(** [np.arange(start, stop, 1)]: the samples [start], [start + 1], ...
    strictly below [stop]. *)
Definition np_arange (start stop : Q) : list Q :=
  (fun i : nat => start + inject_Z (Z.of_nat i))
    <$> seq 0 (Z.to_nat (Qceiling (stop - start))).

(** ** The imported module [skfuzzy]

    [fuzzy.py] calls fourteen functions of the third-party package
    [skfuzzy] (imported as [fuzz]); none of them is part of this
    repository.  They are the methods of an interface, and the code of
    [fuzzy.py] is embedded over any implementation of it. *)

Class SkFuzzy := {
  trimf : list Q -> list Q -> outcome (list Q);
  dsigmf : list Q -> Q -> Q -> Q -> Q -> outcome (list Q);
  gauss2mf : list Q -> Q -> Q -> Q -> Q -> outcome (list Q);
  gaussmf : list Q -> Q -> Q -> outcome (list Q);
  gbellmf : list Q -> Q -> Q -> Q -> outcome (list Q);
  piecemf : list Q -> list Q -> outcome (list Q);
  pimf : list Q -> Q -> Q -> Q -> Q -> outcome (list Q);
  psigmf : list Q -> Q -> Q -> Q -> Q -> outcome (list Q);
  sigmf : list Q -> Q -> Q -> outcome (list Q);
  smf : list Q -> Q -> Q -> outcome (list Q);
  trapmf : list Q -> list Q -> outcome (list Q);
  zmf : list Q -> Q -> Q -> outcome (list Q);
  interp_membership : list Q -> list Q -> Q -> outcome Q;
  defuzz : list Q -> list Q -> string -> outcome Q
}.

(** Linear interpolation along the (x, degree) pairs that follow the
    pair [(x0, y0)]; past the last pair the degree of the last pair is
    kept. *)
Fixpoint interp_from (x0 y0 : Q) (rest : list (Q * Q)) (xx : Q) : Q :=
  match rest with
  | [] => y0
  | (x1, y1) :: rest' =>
      if Qle_bool xx x1
      then y0 + (xx - x0) * ((y1 - y0) / (x1 - x0))
      else interp_from x1 y1 rest' xx
  end.

(** Modelled from the spec: [fuzz.interp_membership], which is not under
    src/.  Section 4.2: the curve's (x, degree) pairs are interpolated
    linearly at the crisp value, and a crisp value outside the sampled
    domain takes the degree of the nearest boundary sample instead of
    failing.  Only an empty curve has no degree to give. *)
Definition interp_membership_spec (x xmf : list Q) (xx : Q) : outcome Q :=
  match zip x xmf with
  | [] => Raise (LibraryError "empty membership curve")
  | (x0, y0) :: rest =>
      if Qle_bool xx x0 then Ok y0 else Ok (interp_from x0 y0 rest xx)
  end.

Definition Qsum (l : list Q) : Q := foldr Qplus 0 l.

(** Modelled from the spec: [fuzz.defuzz], which is not under src/.
    Section 4.5: the centroid [sum(x_i * degree_i) / sum(degree_i)] over
    all samples, failing with [DegenerateAggregate] when the sum of the
    degrees is zero. *)
Definition defuzz_spec (x mfx : list Q) (mode : string) : outcome Q :=
  if Qeq_bool (Qsum mfx) 0 then Raise DegenerateAggregate
  else Ok (Qsum (zip_with Qmult x mfx) / Qsum mfx).

(** ** [membership_f]

    The body is a dictionary display subscripted by [mf].  The display
    pairs each of the twelve keys with a call into [skfuzzy]; Python
    evaluates the twelve calls in source order while it builds the
    dictionary, the first exception leaves the function, and only then
    is the subscript [[mf]] applied, raising [KeyError] for a string
    that is not a key.  The keys are pairwise different, so no entry
    overrides another. *)
Definition family_display `{SkFuzzy} (x : list Q) (abc : list Q)
    (a b c d : Q) (abcd : list Q) : list (string * outcome (list Q)) :=
  [ ("trimf",    trimf x abc);
    ("dsigmf",   dsigmf x a b c d);
    ("gauss2mf", gauss2mf x a b c d);
    ("gaussmf",  gaussmf x a b);
    ("gbellmf",  gbellmf x a b c);
    ("piecemf",  piecemf x abc);
    ("pimf",     pimf x a b c d);
    ("psigmf",   psigmf x a b c d);
    ("sigmf",    sigmf x a b);
    ("smf",      smf x a b);
    ("trapmf",   trapmf x abcd);
    ("zmf",      zmf x a b) ].

Definition membership_f `{SkFuzzy} (mf : string) (x : list Q) (abc : list Q)
    (a b c d : Q) (abcd : list Q) : outcome (list Q) :=
  entries ← comprehension (fun kv => v ← kv.2; Ok (kv.1, v))
                          (family_display x abc a b c d abcd);
  match (list_to_map entries : gmap string (list Q)) !! mf with
  | Some y => Ok y
  | None => Raise KeyError
  end.

(** An evaluated entry of the display, read back as the call that
    returned it. *)
Definition entry_call (q : string * list Q) : string * outcome (list Q) :=
  (q.1, Ok q.2).

(** The call of line 78, [membership_f(mf, x, a)]: three positional
    arguments, the remaining parameters at the defaults of the [def]. *)
Definition membership_f_call `{SkFuzzy} (mf : string) (x a : list Q)
    : outcome (list Q) :=
  membership_f mf x a 1 2 3 4 [0; 0; 0; 0].

(** ** [fuzzify] *)

Definition fuzzify `{SkFuzzy} (Input : list Q) (y : list (list Q))
    (crisp_val : Q) : outcome (list Q) :=
  comprehension (fun fuzzy_sset_y => interp_membership Input fuzzy_sset_y crisp_val) y.

(** ** [fuzzy_matrix] *)

Definition fuzzy_matrix (muval_e muval_de : list Q) : list (list Q) :=
  (fun b => (fun a => py_min a b) <$> muval_e) <$> muval_de.

(** ** [rule_base] *)

(** The five output terms, in the order of the columns of [b[2]]; [ZE]
    is the term the source calls [Z]. *)
Inductive term : Set := NM | NS | ZE | PS | PM.

Definition terms : list term := [NM; NS; ZE; PS; PM].

Definition term_index (t : term) : nat :=
  match t with NM => 0 | NS => 1 | ZE => 2 | PS => 3 | PM => 4 end%nat.

(** [f_mat[d][e]] on the two-dimensional array. *)
Definition cell (f_mat : list (list Q)) (d e : nat) : outcome Q :=
  row ← index f_mat d;
  index row e.

(** The subscripts [f_mat[d][e]] that lines 157 to 165 pass to [max], as
    pairs [(d, e)] in the order they are written. *)
Definition output_cells (t : term) : list (nat * nat) :=
  match t with
  | NM => [(0, 0); (0, 1); (1, 0); (1, 1); (2, 0); (3, 0)]
  | NS => [(0, 2); (1, 2); (2, 1); (3, 1); (4, 0)]
  | ZE => [(0, 3); (2, 2); (4, 1)]
  | PS => [(0, 4); (1, 3); (2, 3); (3, 2); (4, 2)]
  | PM => [(1, 4); (2, 4); (3, 4); (3, 3); (4, 3); (4, 4)]
  end%nat.

(** [max(f_mat[d0][e0], f_mat[d1][e1], ...)]: the arguments are evaluated
    from left to right, then compared. *)
Definition max_cells (f_mat : list (list Q)) (cells : list (nat * nat)) : outcome Q :=
  vs ← comprehension (fun c => cell f_mat c.1 c.2) cells;
  match vs with
  | [] => Raise (LibraryError "max expected at least 1 argument")
  | v :: vs' => Ok (py_max v vs')
  end.

Definition aggregated_strength (f_mat : list (list Q)) (t : term) : outcome Q :=
  max_cells f_mat (output_cells t).

(** [b[2][i] = np.fmin(s, b[2][i])]: the right-hand side reads [b[2][i]],
    [np.fmin] builds a new array, and the assignment stores it in slot [i]
    of the list [b[2]], which is the third element of [b] itself. *)
Definition clip_output (b : list (list (list Q))) (i : nat) (s : Q)
    : outcome (list (list (list Q))) :=
  out ← index b 2;
  curve ← index out i;
  Ok (<[2%nat := <[i := np_fmin s curve]> out]> b).

(** [rule_base] updates its argument [b] in place and returns [b[2]], the
    very list it has updated.  The embedding returns the store after the
    call together with the returned list; the second component is always
    the third element of the first. *)
Definition rule_base (b : list (list (list Q))) (f_mat : list (list Q))
    : outcome (list (list (list Q)) * list (list Q)) :=
  s_NM ← aggregated_strength f_mat NM;
  b ← clip_output b 0 s_NM;
  s_NS ← aggregated_strength f_mat NS;
  b ← clip_output b 1 s_NS;
  s_Z ← aggregated_strength f_mat ZE;
  b ← clip_output b 2 s_Z;
  s_PS ← aggregated_strength f_mat PS;
  b ← clip_output b 3 s_PS;
  s_PM ← aggregated_strength f_mat PM;
  b ← clip_output b 4 s_PM;
  output ← index b 2;
  Ok (b, output).

(** ** The class [Fuzzy] *)

Record Fuzzy := {
  error : Q;
  delta_e : Q;
  mf_types : list string;
  f_ssets : list (list (list Q));
  io_ranges : list (list Q)
}.

(** The result of a Python call that either returns [None] or a float. *)
Inductive value : Type :=
  | PyNone
  | PyFloat (q : Q).

(** What a call leaves behind outside the interpreter's memory. *)
Inductive event : Type :=
  | Print (label : string) (v : Q)
  | VisualizeOutput (b : list (list (list Q))) (inputs : list (list Q))
      (output : list (list Q)) (out_final : Q) (aggregated : list Q)
  | PltShow.

(** [Fuzzy.__init__]: five assignments, none of which can fail. *)
Definition __init__ (mf_types_arg : list string)
    (f_ssets_arg : list (list (list Q))) : outcome Fuzzy :=
  Ok {| error := 0;
        delta_e := 0;
        mf_types := mf_types_arg;
        f_ssets := f_ssets_arg;
        io_ranges := [] |}.

(** Line 91: the nested [np.fmax] calls over [output[0]] ... [output[4]]. *)
Definition fuse (output : list (list Q)) : outcome (list Q) :=
  o0 ← index output 0;
  o1 ← index output 1;
  o2 ← index output 2;
  o3 ← index output 3;
  o4 ← index output 4;
  m34 ← np_fmax o3 o4;
  m234 ← np_fmax o2 m34;
  m1234 ← np_fmax o1 m234;
  np_fmax o0 m1234.

(** Line 75: one array of samples per range [[min, max]]. *)
Definition domains (ranges : list (list Q)) : outcome (list (list Q)) :=
  comprehension
    (fun var => lo ← index var 0; hi ← index var 1; Ok (np_arange lo (hi + 1)))
    ranges.

(** Line 78, the body of the loop over [i]: the curves of the terms of
    variable [i].  The iterable [self.f_ssets[i]] is evaluated once; for
    each of its elements the arguments [self.mf_types[i]] and [inputs[i]]
    are evaluated, in that order, before [membership_f] is called. *)
Definition curves_of_variable `{SkFuzzy} (self : Fuzzy) (inputs : list (list Q))
    (i : nat) : outcome (list (list Q)) :=
  ssets ← index (f_ssets self) i;
  comprehension
    (fun a => mf ← index (mf_types self) i;
              x ← index inputs i;
              membership_f_call mf x a)
    ssets.

(** The local variables of [run]. *)
Record frame := {
  inputs : list (list Q);
  b_store : list (list (list Q));
  muval_e : list Q;
  muval_de : list Q;
  f_mat : list (list Q);
  output : list (list Q);
  aggregated : list Q
}.

(** Lines 75 to 91 of [run].  [b_store] is the list [b] as it stands
    after [rule_base] has updated it. *)
Definition run_aggregate `{SkFuzzy} (self : Fuzzy) : outcome frame :=
  inputs ← domains (io_ranges self);
  b ← comprehension (curves_of_variable self inputs) [0; 1; 2]%nat;
  in0 ← index inputs 0;
  b0 ← index b 0;
  muval_e ← fuzzify in0 b0 (error self);
  in1 ← index inputs 1;
  b1 ← index b 1;
  muval_de ← fuzzify in1 b1 (delta_e self);
  let f_mat := fuzzy_matrix muval_e muval_de in
  r ← rule_base b f_mat;
  aggregated ← fuse r.2;
  Ok {| inputs := inputs; b_store := r.1; muval_e := muval_e;
        muval_de := muval_de; f_mat := f_mat; output := r.2;
        aggregated := aggregated |}.

(** Line 92 of [run]. *)
Definition run_defuzz `{SkFuzzy} (fr : frame) : outcome Q :=
  in2 ← index (inputs fr) 2;
  defuzz in2 (aggregated fr) "centroid".

(** [Fuzzy.run]: lines 75 to 92 compute, lines 93 to 96 print the crisp
    value, hand everything to the visualiser and open the plot window.
    The body has no [return] statement, so a call that reaches its end
    evaluates to [None].  An exception leaves [run] at the statement that
    raised it, before line 93.  The visualiser and the plotting library
    are not part of this module: their calls are recorded with their
    arguments. *)
Definition run `{SkFuzzy} (self : Fuzzy) : list event * outcome value :=
  match (fr ← run_aggregate self; out_final ← run_defuzz fr; Ok (fr, out_final)) with
  | Ok (fr, out_final) =>
      ([Print "output:" out_final;
        VisualizeOutput (b_store fr) (inputs fr) (output fr) out_final (aggregated fr);
        PltShow],
       Ok PyNone)
  | Raise e => ([], Raise e)
  end.

(** ** The rule table of the specification

    Section 4.3 lists, for each output term, its contributing cells as
    pairs (e, d) of an error term and a delta-error term. *)
Definition spec_table (t : term) : list (nat * nat) :=
  match t with
  | NM => [(0, 0); (1, 0); (0, 1); (1, 1); (0, 2); (0, 3)]
  | NS => [(2, 0); (2, 1); (1, 2); (1, 3); (0, 4)]
  | ZE => [(3, 0); (2, 2); (1, 4)]
  | PS => [(4, 0); (3, 1); (3, 2); (2, 3); (2, 4)]
  | PM => [(4, 1); (4, 2); (4, 3); (3, 3); (3, 4); (4, 4)]
  end%nat.

(** The specification writes a cell as (e, d); the source subscripts the
    matrix as [f_mat[d][e]]. *)
Definition swap_cell (c : nat * nat) : nat * nat := (c.2, c.1).

(** All pairs of indices below five. *)
Definition all_cells : list (nat * nat) :=
  d ← seq 0 5; e ← seq 0 5; [(d, e)].

(** [v] is the greatest element of the list [l]. *)
Definition greatest (v : Q) (l : list Q) : Prop :=
  v ∈ l /\ Forall (fun x => x <= v) l.

(** [f_mat[d][e] = v] on a copy of the matrix; out of range the matrix
    has no such cell and is left as it is. *)
Definition set_cell (f_mat : list (list Q)) (d e : nat) (v : Q) : list (list Q) :=
  match f_mat !! d with
  | Some row => <[d := <[e := v]> row]> f_mat
  | None => f_mat
  end.

Definition degree (q : Q) : Prop := 0 <= q /\ q <= 1.

(** A matrix with five rows of five columns. *)
Definition five_by_five (m : list (list Q)) : Prop :=
  length m = 5%nat /\ Forall (fun row => length row = 5%nat) m.

Ltac degrees := repeat constructor; unfold degree; simpl; lra.

(** Lookups in a list after a chain of updates at literal positions. *)
Ltac insert_lookup :=
  rewrite ?list_lookup_insert_ne by lia;
  try (rewrite list_lookup_insert_eq by (rewrite ?length_insert; lia));
  try done.

(** ** A rational stand-in for [skfuzzy]

    The examples below need one implementation of the interface to run
    the controller on.  The triangular family is written out; the curves
    of the other families are not needed by the examples and are the zero
    curve over the domain.  Interpolation and defuzzification are the
    functions modelled from the specification. *)
Definition tri_point (a b c x : Q) : Q :=
  if Qeq_bool x b then 1
  else if Qltb a x && Qltb x b then (x - a) / (b - a)
  else if Qltb b x && Qltb x c then (c - x) / (c - b)
  else 0.

Definition tri_curve (x abc : list Q) : outcome (list Q) :=
  match abc with
  | [a; b; c] =>
      if Qle_bool a b && Qle_bool b c then Ok (tri_point a b c <$> x)
      else Raise (LibraryError "abc requires a <= b <= c")
  | _ => Raise (LibraryError "abc parameter must have exactly three elements")
  end.

Definition zero_curve (x : list Q) : outcome (list Q) := Ok ((fun _ => 0) <$> x).

Definition rational_fuzz : SkFuzzy := {|
  trimf := tri_curve;
  dsigmf := fun x _ _ _ _ => zero_curve x;
  gauss2mf := fun x _ _ _ _ => zero_curve x;
  gaussmf := fun x _ _ => zero_curve x;
  gbellmf := fun x _ _ _ => zero_curve x;
  piecemf := fun x _ => zero_curve x;
  pimf := fun x _ _ _ _ => zero_curve x;
  psigmf := fun x _ _ _ _ => zero_curve x;
  sigmf := fun x _ _ => zero_curve x;
  smf := fun x _ _ => zero_curve x;
  trapmf := fun x _ => zero_curve x;
  zmf := fun x _ _ => zero_curve x;
  interp_membership := interp_membership_spec;
  defuzz := defuzz_spec
|}.

(** A controller over error and delta-error in [-2, 2] and output in
    [-2, 2], with five triangular terms per variable. *)
Definition tri_terms : list (list Q) :=
  [[-2; -2; -1]; [-2; -1; 0]; [-1; 0; 1]; [0; 1; 2]; [1; 2; 2]].

Definition sample_controller (err de : Q) : Fuzzy :=
  {| error := err;
     delta_e := de;
     mf_types := ["trimf"; "trimf"; "trimf"];
     f_ssets := [tri_terms; tri_terms; tri_terms];
     io_ranges := [[-2; 2]; [-2; 2]; [-2; 2]] |}.

(** The curves and the rule strengths that [run] hands to [rule_base] for
    [sample_controller (1 # 2) (-1)]. *)
Definition sample_curves : list (list (list Q)) :=
  let c := [[1; 0; 0; 0; 0]; [0; 1; 0; 0; 0]; [0; 0; 1; 0; 0];
            [0; 0; 0; 1; 0]; [0; 0; 0; 0; 1]] in
  [c; c; c].

Definition sample_f_mat : list (list Q) :=
  fuzzy_matrix [0; 0; 1 # 2; 1 # 2; 0] [0; 1; 0; 0; 0].

(** The parameter counts that section 4.1 names for a family. *)
Definition spec_arity (mf : string) : option nat :=
  if decide (mf = "trimf") then Some 3%nat
  else if decide (mf = "trapmf") then Some 4%nat
  else if decide (mf = "gaussmf") then Some 2%nat
  else None.

(** A configuration in which some term of some variable has a number of
    shape parameters other than the one section 4.1 names for the
    variable's family. *)
Definition wrong_arity (mf_types_arg : list string)
    (f_ssets_arg : list (list (list Q))) : Prop :=
  exists (i : nat) mf terms abc n,
    mf_types_arg !! i = Some mf /\ f_ssets_arg !! i = Some terms /\
    abc ∈ terms /\ spec_arity mf = Some n /\ length abc <> n.

(** A configuration whose first error term has two parameters. *)
Definition short_terms : list (list Q) :=
  [[-2; -1]; [-2; -1; 0]; [-1; 0; 1]; [0; 1; 2]; [1; 2; 2]].

(** A controller whose error terms all peak at the upper end of the
    domain: at error 0 no rule fires. *)
Definition silent_controller : Fuzzy :=
  {| error := 0;
     delta_e := 0;
     mf_types := ["trimf"; "trimf"; "trimf"];
     f_ssets := [[[1; 2; 2]; [1; 2; 2]; [1; 2; 2]; [1; 2; 2]; [1; 2; 2]];
                 tri_terms; tri_terms];
     io_ranges := [[-2; 2]; [-2; 2]; [-2; 2]] |}.

(** * Properties *)

(** ** The outcome monad *)

Lemma bind_Ok_inv {A B} (m : outcome A) (k : A -> outcome B) (r : B) :
  (a ← m; k a) = Ok r -> exists a, m = Ok a /\ k a = Ok r.
Proof. destruct m as [a | e]; simpl; [eauto | discriminate]. Qed.

Lemma index_Ok {A} (l : list A) (i : nat) (a : A) :
  index l i = Ok a <-> l !! i = Some a.
Proof. unfold index. destruct (l !! i); split; congruence. Qed.

Lemma index_lt {A} (l : list A) (i : nat) :
  (i < length l)%nat -> exists a, index l i = Ok a /\ l !! i = Some a.
Proof.
  intros H. destruct (lookup_lt_is_Some_2 l i H) as [a Ha].
  exists a. split; [by apply index_Ok | done].
Qed.

Lemma index_ge {A} (l : list A) (i : nat) :
  (length l <= i)%nat -> index l i = Raise IndexError.
Proof. intros H. unfold index. by rewrite lookup_ge_None_2. Qed.

Lemma comprehension_Ok {A B} (f : A -> outcome B) (l : list A) (bs : list B) :
  comprehension f l = Ok bs <-> Forall2 (fun a b => f a = Ok b) l bs.
Proof.
  revert bs. induction l as [| a l IH]; intros bs; simpl.
  - split.
    + intros [= <-]. constructor.
    + intros H. by inversion H.
  - split.
    + intros H. apply bind_Ok_inv in H as (b & Hb & H).
      apply bind_Ok_inv in H as (bs' & Hbs & [= <-]).
      constructor; [done | by apply IH].
    + intros H. inversion H as [| ? b ? bs' Hb Hbs]; subst.
      rewrite Hb. simpl. apply IH in Hbs. rewrite Hbs. done.
Qed.

Lemma comprehension_total {A B} (f : A -> outcome B) (l : list A) :
  Forall (fun a => exists b, f a = Ok b) l ->
  exists bs, comprehension f l = Ok bs.
Proof.
  induction 1 as [| a l [b Hb] _ [bs Hbs]]; simpl.
  - by eexists.
  - rewrite Hb. simpl. rewrite Hbs. simpl. by eexists.
Qed.

(** ** Order facts about [py_min] and [py_max] *)

Lemma Qltb_true (x y : Q) : Qltb x y = true <-> x < y.
Proof.
  unfold Qltb. rewrite negb_true_iff.
  destruct (Qle_bool y x) eqn:E.
  - apply Qle_bool_iff in E. split; [discriminate | intros H; lra].
  - split; [intros _ | reflexivity].
    destruct (Qlt_le_dec x y) as [H | H]; [exact H |].
    apply Qle_bool_iff in H. congruence.
Qed.

Lemma Qltb_false (x y : Q) : Qltb x y = false <-> y <= x.
Proof.
  destruct (Qltb x y) eqn:E.
  - apply Qltb_true in E. split; [discriminate | intros H; lra].
  - split; [intros _ | reflexivity].
    destruct (Qlt_le_dec x y) as [H | H]; [| exact H].
    apply Qltb_true in H. congruence.
Qed.

Lemma py_min_cases (a b : Q) :
  (py_min a b = a /\ a <= b) \/ (py_min a b = b /\ b < a).
Proof.
  unfold py_min. destruct (Qltb b a) eqn:E.
  - right. split; [reflexivity | by apply Qltb_true].
  - left. split; [reflexivity | by apply Qltb_false].
Qed.

Lemma py_min_Qmin (a b : Q) : py_min a b == Qmin a b.
Proof.
  destruct (py_min_cases a b) as [[-> H] | [-> H]].
  - symmetry. by apply Q.min_l.
  - symmetry. apply Q.min_r. lra.
Qed.

Lemma py_min_degree (a b : Q) : degree a -> degree b -> degree (py_min a b).
Proof.
  intros [Ha0 Ha1] [Hb0 Hb1].
  destruct (py_min_cases a b) as [[-> H] | [-> H]]; split; lra.
Qed.

(** ** [fuzzy_matrix] *)

Lemma fuzzy_matrix_lookup (mu_e mu_de : list Q) (d e : nat) (a b : Q) :
  mu_e !! e = Some a -> mu_de !! d = Some b ->
  cell (fuzzy_matrix mu_e mu_de) d e = Ok (py_min a b).
Proof.
  intros He Hd. unfold cell, fuzzy_matrix, index.
  rewrite list_lookup_fmap, Hd. simpl.
  rewrite list_lookup_fmap, He. reflexivity.
Qed.

Lemma fuzzy_matrix_shape (mu_e mu_de : list Q) :
  length (fuzzy_matrix mu_e mu_de) = length mu_de /\
  Forall (fun row => length row = length mu_e) (fuzzy_matrix mu_e mu_de).
Proof.
  unfold fuzzy_matrix. split.
  - by rewrite length_fmap.
  - apply Forall_fmap, Forall_forall. intros b _. simpl. by rewrite length_fmap.
Qed.

(** C2.  For two vectors of five membership degrees in [0, 1],
    [fuzzy_matrix] returns five rows of five cells; the cell at row [d]
    and column [e] is [min(muval_e[e], muval_de[d])], so it lies in
    [0, 1] and exceeds neither of the two degrees it is built from. *)
Theorem fuzzy_matrix_cells (mu_e mu_de : list Q) :
  length mu_e = 5%nat -> length mu_de = 5%nat ->
  Forall degree mu_e -> Forall degree mu_de ->
  length (fuzzy_matrix mu_e mu_de) = 5%nat /\
  Forall (fun row => length row = 5%nat) (fuzzy_matrix mu_e mu_de) /\
  forall d e : nat, (d < 5)%nat -> (e < 5)%nat ->
    exists a b : Q,
      mu_e !! e = Some a /\ mu_de !! d = Some b /\
      cell (fuzzy_matrix mu_e mu_de) d e = Ok (py_min a b) /\
      py_min a b == Qmin a b /\
      degree (py_min a b) /\ py_min a b <= a /\ py_min a b <= b.
Proof.
  intros Le Lde De Dde.
  destruct (fuzzy_matrix_shape mu_e mu_de) as [Hlen Hrows].
  rewrite Le in Hrows. rewrite Lde in Hlen.
  split; [done |]. split; [done |].
  intros d e Hd He.
  destruct (lookup_lt_is_Some_2 mu_e e) as [a Ha]; [lia |].
  destruct (lookup_lt_is_Some_2 mu_de d) as [b Hb]; [lia |].
  exists a, b. split; [done |]. split; [done |].
  split; [by apply fuzzy_matrix_lookup |].
  split; [apply py_min_Qmin |].
  pose proof (Forall_lookup_1 _ _ _ _ De Ha) as Da.
  pose proof (Forall_lookup_1 _ _ _ _ Dde Hb) as Db.
  split; [by apply py_min_degree |].
  pose proof (Q.le_min_l a b). pose proof (Q.le_min_r a b).
  pose proof (py_min_Qmin a b) as E.
  split; rewrite E; done.
Qed.

Lemma fuzzy_matrix_cells_witness :
  cell (fuzzy_matrix [0; 1 # 4; 3 # 4; 0; 0] [0; 0; 1 # 2; 1 # 2; 0]) 2 1
    = Ok (1 # 4).
Proof.
  pose proof (fuzzy_matrix_cells [0; 1 # 4; 3 # 4; 0; 0] [0; 0; 1 # 2; 1 # 2; 0]
                eq_refl eq_refl ltac:(degrees) ltac:(degrees)) as (_ & _ & H).
  destruct (H 2%nat 1%nat ltac:(lia) ltac:(lia)) as (a & b & Ha & Hb & Hc & _).
  injection Ha as <-. injection Hb as <-. exact Hc.
Defined.

(** ** [max] over cells of the matrix *)

Lemma max_step_cases (m item : Q) :
  (max_step m item = item /\ m < item) \/ (max_step m item = m /\ item <= m).
Proof.
  unfold max_step. destruct (Qltb m item) eqn:E.
  - left. split; [reflexivity | by apply Qltb_true].
  - right. split; [reflexivity | by apply Qltb_false].
Qed.

Lemma py_max_cons (a0 x : Q) (rest : list Q) :
  py_max a0 (x :: rest) = py_max (max_step a0 x) rest.
Proof. reflexivity. Qed.

Lemma py_max_elem (a0 : Q) (rest : list Q) : py_max a0 rest ∈ a0 :: rest.
Proof.
  revert a0. induction rest as [| x rest IH]; intros a0.
  - simpl. left.
  - rewrite py_max_cons.
    specialize (IH (max_step a0 x)). apply elem_of_cons in IH as [IH | IH].
    + rewrite IH. destruct (max_step_cases a0 x) as [[-> _] | [-> _]].
      * right. left.
      * left.
    + right. right. exact IH.
Qed.

Lemma py_max_ge_first (a0 : Q) (rest : list Q) : a0 <= py_max a0 rest.
Proof.
  revert a0. induction rest as [| x rest IH]; intros a0.
  - simpl. lra.
  - rewrite py_max_cons. specialize (IH (max_step a0 x)).
    destruct (max_step_cases a0 x) as [[E H] | [E H]]; rewrite E in *; lra.
Qed.

Lemma py_max_upper (a0 : Q) (rest : list Q) :
  Forall (fun x => x <= py_max a0 rest) (a0 :: rest).
Proof.
  revert a0. induction rest as [| x rest IH]; intros a0.
  - constructor; [simpl; lra | constructor].
  - rewrite py_max_cons. specialize (IH (max_step a0 x)).
    inversion IH as [| ? ? Hm Hrest]; subst.
    destruct (max_step_cases a0 x) as [[E H] | [E H]]; rewrite E in *.
    + constructor; [lra |]. constructor; [lra | done].
    + constructor; [lra |]. constructor; [lra | done].
Qed.

Lemma py_max_greatest (a0 : Q) (rest : list Q) :
  greatest (py_max a0 rest) (a0 :: rest).
Proof. split; [apply py_max_elem | apply py_max_upper]. Qed.

Lemma max_cells_Ok (m : list (list Q)) (cells : list (nat * nat)) (v : Q) :
  max_cells m cells = Ok v ->
  exists vs, Forall2 (fun c x => cell m c.1 c.2 = Ok x) cells vs /\ greatest v vs.
Proof.
  unfold max_cells. intros H.
  apply bind_Ok_inv in H as (vs & Hvs & H).
  apply comprehension_Ok in Hvs.
  destruct vs as [| v0 vs']; [discriminate |].
  injection H as <-. exists (v0 :: vs'). split; [done | apply py_max_greatest].
Qed.

Lemma max_cells_attained (m : list (list Q)) (cells : list (nat * nat)) (v : Q) :
  max_cells m cells = Ok v ->
  exists c, c ∈ cells /\ cell m c.1 c.2 = Ok v.
Proof.
  intros H. apply max_cells_Ok in H as (vs & HF & Hin & _).
  apply list_elem_of_lookup in Hin as [i Hi].
  destruct (Forall2_lookup_r _ _ _ _ _ HF Hi) as (c & Hc & Hcell).
  exists c. split; [| done]. apply list_elem_of_lookup. eauto.
Qed.

Lemma max_cells_upper (m : list (list Q)) (cells : list (nat * nat)) (v : Q) :
  max_cells m cells = Ok v ->
  forall c x, c ∈ cells -> cell m c.1 c.2 = Ok x -> x <= v.
Proof.
  intros H c x Hc Hx. apply max_cells_Ok in H as (vs & HF & _ & Hub).
  apply list_elem_of_lookup in Hc as [i Hi].
  destruct (Forall2_lookup_l _ _ _ _ _ HF Hi) as (x' & Hx' & Hcell).
  assert (x' = x) as -> by congruence.
  exact (Forall_lookup_1 _ _ _ _ Hub Hx').
Qed.

Lemma max_cells_total (m : list (list Q)) (cells : list (nat * nat)) :
  cells <> [] ->
  (forall c, c ∈ cells -> exists x, cell m c.1 c.2 = Ok x) ->
  exists v, max_cells m cells = Ok v.
Proof.
  intros Hne Hall. unfold max_cells.
  destruct (comprehension_total (fun c => cell m c.1 c.2) cells) as [vs Hvs].
  { apply Forall_forall. exact Hall. }
  rewrite Hvs. simpl. destruct vs as [| v0 vs'].
  - apply comprehension_Ok in Hvs. inversion Hvs; subst. done.
  - by eexists.
Qed.

Lemma cell_total (m : list (list Q)) (d e : nat) :
  five_by_five m -> (d < 5)%nat -> (e < 5)%nat -> exists x, cell m d e = Ok x.
Proof.
  intros [Hlen Hrows] Hd He. unfold cell.
  destruct (index_lt m d) as (row & -> & Hrow); [lia |]. simpl.
  pose proof (Forall_lookup_1 _ _ _ _ Hrows Hrow) as Hr. simpl in Hr.
  destruct (index_lt row e) as (x & -> & _); [lia |]. by eexists.
Qed.

Lemma output_cells_range (t : term) (c : nat * nat) :
  c ∈ output_cells t -> (c.1 < 5)%nat /\ (c.2 < 5)%nat.
Proof.
  intros H. destruct t; simpl in H;
    repeat (apply elem_of_cons in H as [-> | H]; [simpl; lia |]);
    by apply elem_of_nil in H.
Qed.

Lemma aggregated_strength_total (m : list (list Q)) (t : term) :
  five_by_five m -> exists v, aggregated_strength m t = Ok v.
Proof.
  intros Hm. apply max_cells_total.
  - by destruct t.
  - intros c Hc. apply output_cells_range in Hc as [H1 H2]. by apply cell_total.
Qed.

(** ** The rule table *)

Lemma spec_table_swap (t : term) : output_cells t = swap_cell <$> spec_table t.
Proof. by destruct t. Qed.

Lemma spec_table_disjoint (t1 t2 : term) (c : nat * nat) :
  c ∈ spec_table t1 -> c ∈ spec_table t2 -> t1 = t2.
Proof.
  intros H1 H2. apply list_elem_of_In in H1, H2.
  destruct t1, t2; try reflexivity; exfalso; simpl in H1, H2;
    repeat (destruct H1 as [<- | H1];
            [ repeat (destruct H2 as [[=] | H2]); exact H2 |]);
    exact H1.
Qed.

Lemma spec_table_covers : (t ← terms; spec_table t) ≡ₚ all_cells.
Proof.
  apply NoDup_Permutation.
  - apply (bool_decide_unpack _). by vm_compute.
  - apply (bool_decide_unpack _). by vm_compute.
  - intros c. split; intros H; apply list_elem_of_In in H; simpl in H;
      repeat (destruct H as [<- | H];
              [ apply (bool_decide_unpack _); by vm_compute |]);
      destruct H.
Qed.

Lemma aggregated_strength_matrix (mu_e mu_de : list Q) (t : term) :
  length mu_e = 5%nat -> length mu_de = 5%nat ->
  exists v,
    aggregated_strength (fuzzy_matrix mu_e mu_de) t = Ok v /\
    (exists e d a b, (e, d) ∈ spec_table t /\ mu_e !! e = Some a /\
        mu_de !! d = Some b /\ v = py_min a b) /\
    (forall e d a b, (e, d) ∈ spec_table t -> mu_e !! e = Some a ->
        mu_de !! d = Some b -> py_min a b <= v).
Proof.
  intros Le Lde.
  assert (five_by_five (fuzzy_matrix mu_e mu_de)) as Hm.
  { destruct (fuzzy_matrix_shape mu_e mu_de) as [H1 H2].
    split; [congruence | by rewrite Le in H2]. }
  destruct (aggregated_strength_total _ t Hm) as [v Hv].
  exists v. split; [done |]. unfold aggregated_strength in Hv. split.
  - destruct (max_cells_attained _ _ _ Hv) as ([d e] & Hc & Hcell).
    pose proof (output_cells_range _ _ Hc) as [Hd He]. simpl in Hd, He, Hcell.
    destruct (lookup_lt_is_Some_2 mu_e e) as [a Ha]; [lia |].
    destruct (lookup_lt_is_Some_2 mu_de d) as [b Hb]; [lia |].
    rewrite (fuzzy_matrix_lookup _ _ _ _ _ _ Ha Hb) in Hcell.
    injection Hcell as <-. exists e, d, a, b.
    split; [| done].
    rewrite spec_table_swap in Hc.
    apply list_elem_of_fmap in Hc as ([e' d'] & [= -> ->] & Hc).
    exact Hc.
  - intros e d a b Hc Ha Hb.
    apply (max_cells_upper _ _ _ Hv (d, e)).
    + rewrite spec_table_swap. apply list_elem_of_fmap. by exists (e, d).
    + simpl. by apply fuzzy_matrix_lookup.
Qed.

(** C1.  The subscripts that [rule_base] passes to [max] for an output
    term are the cells the table of section 4.3 lists for that term; no
    cell is listed for two terms; the five lists together are the 25
    pairs of indices below five, each once; and on the matrix built from
    two vectors of five degrees the strength of every term is the
    greatest of [min(muval_e[e], muval_de[d])] over the cells (e, d)
    listed for it. *)
Theorem rule_table_partition :
  (forall t, output_cells t = swap_cell <$> spec_table t) /\
  (forall t1 t2 c, c ∈ spec_table t1 -> c ∈ spec_table t2 -> t1 = t2) /\
  (t ← terms; spec_table t) ≡ₚ all_cells /\
  (forall e d : nat, (e, d) ∈ all_cells <-> (e < 5)%nat /\ (d < 5)%nat) /\
  (forall mu_e mu_de : list Q,
     length mu_e = 5%nat -> length mu_de = 5%nat ->
     forall t, exists v,
       aggregated_strength (fuzzy_matrix mu_e mu_de) t = Ok v /\
       (exists e d a b, (e, d) ∈ spec_table t /\ mu_e !! e = Some a /\
           mu_de !! d = Some b /\ v = py_min a b) /\
       (forall e d a b, (e, d) ∈ spec_table t -> mu_e !! e = Some a ->
           mu_de !! d = Some b -> py_min a b <= v)).
Proof.
  split; [exact spec_table_swap |].
  split; [exact spec_table_disjoint |].
  split; [exact spec_table_covers |].
  split.
  - intros e d. unfold all_cells. rewrite list_elem_of_bind. split.
    + intros (d' & H & Hd'). apply list_elem_of_bind in H as (e' & H & He').
      apply list_elem_of_singleton in H as [= -> ->].
      apply elem_of_seq in Hd', He'. lia.
    + intros [He Hd]. exists e. split; [| apply elem_of_seq; lia].
      apply list_elem_of_bind. exists d.
      split; [by apply list_elem_of_singleton |].
      apply elem_of_seq. lia.
  - intros mu_e mu_de Le Lde t. by apply aggregated_strength_matrix.
Qed.

Lemma rule_table_partition_witness :
  exists v,
    aggregated_strength
      (fuzzy_matrix [0; 1 # 4; 3 # 4; 0; 0] [0; 0; 1 # 2; 1 # 2; 0]) NS = Ok v /\
    (1 # 4) <= v.
Proof.
  destruct rule_table_partition as (_ & _ & _ & _ & H).
  destruct (H [0; 1 # 4; 3 # 4; 0; 0] [0; 0; 1 # 2; 1 # 2; 0] eq_refl eq_refl NS)
    as (v & Hv & _ & Hub).
  exists v. split; [exact Hv |].
  apply (Hub 1%nat 2%nat (1 # 4) (1 # 2)); [| reflexivity | reflexivity].
  simpl. apply (bool_decide_unpack _). by vm_compute.
Defined.

(** ** Monotonicity of the aggregated strengths *)

Lemma cell_set_cell_eq (m : list (list Q)) (d e : nat) (old v : Q) :
  cell m d e = Ok old -> cell (set_cell m d e v) d e = Ok v.
Proof.
  unfold cell, set_cell. intros H.
  apply bind_Ok_inv in H as (row & Hrow & He).
  apply index_Ok in Hrow, He. rewrite Hrow.
  assert (index (<[d:=<[e:=v]> row]> m) d = Ok (<[e:=v]> row)) as ->.
  { apply index_Ok, list_lookup_insert_eq. by eapply lookup_lt_Some. }
  simpl. apply index_Ok, list_lookup_insert_eq. by eapply lookup_lt_Some.
Qed.

Lemma cell_set_cell_ne (m : list (list Q)) (d e d' e' : nat) (v : Q) :
  (d', e') <> (d, e) -> cell (set_cell m d e v) d' e' = cell m d' e'.
Proof.
  intros Hne. unfold cell, set_cell, index.
  destruct (m !! d) as [row |] eqn:Hrow; [| reflexivity].
  destruct (decide (d' = d)) as [-> | Hd].
  - rewrite list_lookup_insert_eq by (by eapply lookup_lt_Some).
    rewrite Hrow. simpl.
    rewrite list_lookup_insert_ne by congruence. reflexivity.
  - rewrite list_lookup_insert_ne by congruence. reflexivity.
Qed.

Lemma set_cell_shape (m : list (list Q)) (d e : nat) (v : Q) :
  five_by_five m -> five_by_five (set_cell m d e v).
Proof.
  intros [Hlen Hrows]. unfold set_cell.
  destruct (m !! d) as [row |] eqn:Hrow; [| done]. split.
  - by rewrite length_insert.
  - apply Forall_insert; [done |]. rewrite length_insert.
    exact (Forall_lookup_1 _ _ _ _ Hrows Hrow).
Qed.

(** C8.  In a matrix of five rows and five columns, raising the strength
    of one cell and leaving the other cells as they are does not lower
    the aggregated strength of any output term, in particular not that
    of the term the cell contributes to. *)
Theorem aggregated_strength_monotone
    (m : list (list Q)) (t : term) (d e : nat) (old v : Q) :
  five_by_five m ->
  cell m d e = Ok old ->
  old <= v ->
  exists s s',
    aggregated_strength m t = Ok s /\
    aggregated_strength (set_cell m d e v) t = Ok s' /\
    s <= s'.
Proof.
  intros Hm Hold Hle.
  destruct (aggregated_strength_total m t Hm) as [s Hs].
  destruct (aggregated_strength_total _ t (set_cell_shape m d e v Hm)) as [s' Hs'].
  exists s, s'. split; [done |]. split; [done |].
  unfold aggregated_strength in *.
  destruct (max_cells_attained _ _ _ Hs) as ([d0 e0] & Hc & Hcell).
  simpl in Hcell.
  destruct (decide ((d0, e0) = (d, e))) as [[= -> ->] | Hne].
  - assert (s = old) as -> by congruence.
    pose proof (max_cells_upper _ _ _ Hs' (d, e) v Hc
                  (cell_set_cell_eq _ _ _ _ _ Hold)).
    lra.
  - apply (max_cells_upper _ _ _ Hs' (d0, e0) s Hc).
    simpl. by rewrite cell_set_cell_ne.
Qed.

Lemma aggregated_strength_monotone_witness :
  exists s s',
    aggregated_strength (fuzzy_matrix [0; 1 # 4; 3 # 4; 0; 0] [0; 0; 1 # 2; 1 # 2; 0]) NS
      = Ok s /\
    aggregated_strength
      (set_cell (fuzzy_matrix [0; 1 # 4; 3 # 4; 0; 0] [0; 0; 1 # 2; 1 # 2; 0]) 2 1 1) NS
      = Ok s' /\
    s <= s'.
Proof.
  apply (aggregated_strength_monotone _ NS 2 1 (1 # 4) 1).
  - split; [reflexivity | repeat constructor].
  - reflexivity.
  - lra.
Defined.

(** ** [rule_base] writes into its argument *)

Lemma fmin2_Qmin (s y : Q) : fmin2 s y == Qmin y s.
Proof.
  unfold fmin2. destruct (Qle_bool s y) eqn:E.
  - apply Qle_bool_iff in E. symmetry. by apply Q.min_r.
  - assert (y <= s) as H.
    { destruct (Qlt_le_dec y s) as [H | H]; [lra |].
      apply Qle_bool_iff in H. congruence. }
    symmetry. by apply Q.min_l.
Qed.

Lemma fmax2_Qmax (x y : Q) : fmax2 x y == Qmax x y.
Proof.
  unfold fmax2. destruct (Qle_bool y x) eqn:E.
  - apply Qle_bool_iff in E. symmetry. by apply Q.max_l.
  - assert (x <= y) as H.
    { destruct (Qlt_le_dec x y) as [H | H]; [lra |].
      apply Qle_bool_iff in H. congruence. }
    symmetry. by apply Q.max_r.
Qed.

Lemma np_fmin_lookup (s : Q) (curve : list Q) (k : nat) (y : Q) :
  curve !! k = Some y ->
  exists c, np_fmin s curve !! k = Some c /\ c == Qmin y s.
Proof.
  intros H. exists (fmin2 s y). split; [| apply fmin2_Qmin].
  unfold np_fmin. by rewrite list_lookup_fmap, H.
Qed.

Lemma clip_output_Ok (b : list (list (list Q))) (i : nat) (s : Q)
    (out : list (list Q)) (curve : list Q) :
  b !! 2%nat = Some out -> out !! i = Some curve ->
  clip_output b i s = Ok (<[2%nat := <[i := np_fmin s curve]> out]> b).
Proof.
  intros Hb Hc. unfold clip_output.
  apply index_Ok in Hb, Hc. rewrite Hb. simpl. rewrite Hc. reflexivity.
Qed.

Lemma rule_base_Ok (b : list (list (list Q))) (m : list (list Q))
    (old : list (list Q)) :
  five_by_five m -> b !! 2%nat = Some old -> (5 <= length old)%nat ->
  exists s0 s1 s2 s3 s4 c0 c1 c2 c3 c4,
    aggregated_strength m NM = Ok s0 /\ aggregated_strength m NS = Ok s1 /\
    aggregated_strength m ZE = Ok s2 /\ aggregated_strength m PS = Ok s3 /\
    aggregated_strength m PM = Ok s4 /\
    old !! 0%nat = Some c0 /\ old !! 1%nat = Some c1 /\ old !! 2%nat = Some c2 /\
    old !! 3%nat = Some c3 /\ old !! 4%nat = Some c4 /\
    let out := <[4%nat := np_fmin s4 c4]> (<[3%nat := np_fmin s3 c3]>
                 (<[2%nat := np_fmin s2 c2]> (<[1%nat := np_fmin s1 c1]>
                    (<[0%nat := np_fmin s0 c0]> old)))) in
    rule_base b m = Ok (<[2%nat := out]> b, out).
Proof.
  intros Hm Hb Hlen.
  destruct (aggregated_strength_total m NM Hm) as [s0 H0].
  destruct (aggregated_strength_total m NS Hm) as [s1 H1].
  destruct (aggregated_strength_total m ZE Hm) as [s2 H2].
  destruct (aggregated_strength_total m PS Hm) as [s3 H3].
  destruct (aggregated_strength_total m PM Hm) as [s4 H4].
  destruct (lookup_lt_is_Some_2 old 0) as [c0 Hc0]; [lia |].
  destruct (lookup_lt_is_Some_2 old 1) as [c1 Hc1]; [lia |].
  destruct (lookup_lt_is_Some_2 old 2) as [c2 Hc2]; [lia |].
  destruct (lookup_lt_is_Some_2 old 3) as [c3 Hc3]; [lia |].
  destruct (lookup_lt_is_Some_2 old 4) as [c4 Hc4]; [lia |].
  exists s0, s1, s2, s3, s4, c0, c1, c2, c3, c4.
  repeat (split; [done |]). intros out.
  pose proof (lookup_lt_Some _ _ _ Hb) as Hb2.
  unfold rule_base.
  rewrite H0. simpl. rewrite (clip_output_Ok b 0 s0 old c0 Hb Hc0). simpl.
  rewrite H1. simpl.
  erewrite (clip_output_Ok _ 1 s1); [| by apply list_lookup_insert_eq | by insert_lookup].
  simpl. rewrite list_insert_insert_eq.
  rewrite H2. simpl.
  erewrite (clip_output_Ok _ 2 s2); [| by apply list_lookup_insert_eq | by insert_lookup].
  simpl. rewrite list_insert_insert_eq.
  rewrite H3. simpl.
  erewrite (clip_output_Ok _ 3 s3); [| by apply list_lookup_insert_eq | by insert_lookup].
  simpl. rewrite list_insert_insert_eq.
  rewrite H4. simpl.
  erewrite (clip_output_Ok _ 4 s4); [| by apply list_lookup_insert_eq | by insert_lookup].
  simpl. rewrite list_insert_insert_eq.
  unfold index. rewrite list_lookup_insert_eq by done. reflexivity.
Qed.

Lemma np_fmax_same_length (xs ys : list Q) :
  length xs = length ys -> np_fmax xs ys = Ok (zip_with fmax2 xs ys).
Proof. intros H. unfold np_fmax. by rewrite decide_True. Qed.

Lemma fuse_Ok (o0 o1 o2 o3 o4 : list Q) (out : list (list Q)) :
  out !! 0%nat = Some o0 -> out !! 1%nat = Some o1 -> out !! 2%nat = Some o2 ->
  out !! 3%nat = Some o3 -> out !! 4%nat = Some o4 ->
  length o1 = length o0 -> length o2 = length o0 ->
  length o3 = length o0 -> length o4 = length o0 ->
  fuse out =
    Ok (zip_with fmax2 o0 (zip_with fmax2 o1 (zip_with fmax2 o2 (zip_with fmax2 o3 o4)))).
Proof.
  intros H0 H1 H2 H3 H4 L1 L2 L3 L4. unfold fuse.
  apply index_Ok in H0, H1, H2, H3, H4.
  rewrite H0, H1, H2, H3, H4. simpl.
  rewrite (np_fmax_same_length o3 o4) by congruence. simpl.
  rewrite np_fmax_same_length by (rewrite length_zip_with; lia). simpl.
  rewrite np_fmax_same_length by (rewrite !length_zip_with; lia). simpl.
  rewrite np_fmax_same_length by (rewrite !length_zip_with; lia).
  reflexivity.
Qed.

(** C7, as the code has it.  [rule_base] stores every clipped curve in
    the slot of [b[2]] its original came from and returns [b[2]] itself:
    after the call the third element of [b] is the returned list, slot
    [T] of it holds [min(curve[x], strength[T])] at every sample [x] of
    the curve it held before, and the other elements of [b] (the error
    and delta-error curves) and any slot past the fifth are as they
    were.  Fusing five clipped curves of one length gives their
    pointwise maximum. *)
Theorem rule_base_in_place (b : list (list (list Q))) (m : list (list Q))
    (old : list (list Q)) :
  five_by_five m -> b !! 2%nat = Some old -> (5 <= length old)%nat ->
  exists b' out,
    rule_base b m = Ok (b', out) /\
    b' !! 2%nat = Some out /\
    length b' = length b /\
    (forall i : nat, i <> 2%nat -> b' !! i = b !! i) /\
    length out = length old /\
    (forall i : nat, (5 <= i)%nat -> out !! i = old !! i) /\
    (forall t curve, old !! term_index t = Some curve ->
       exists s clipped,
         aggregated_strength m t = Ok s /\
         out !! term_index t = Some clipped /\
         length clipped = length curve /\
         forall k y, curve !! k = Some y ->
           exists c, clipped !! k = Some c /\ c == Qmin y s) /\
    (forall o0 o1 o2 o3 o4,
       out !! 0%nat = Some o0 -> out !! 1%nat = Some o1 -> out !! 2%nat = Some o2 ->
       out !! 3%nat = Some o3 -> out !! 4%nat = Some o4 ->
       length o1 = length o0 -> length o2 = length o0 ->
       length o3 = length o0 -> length o4 = length o0 ->
       exists agg,
         fuse out = Ok agg /\ length agg = length o0 /\
         forall k x0 x1 x2 x3 x4,
           o0 !! k = Some x0 -> o1 !! k = Some x1 -> o2 !! k = Some x2 ->
           o3 !! k = Some x3 -> o4 !! k = Some x4 ->
           exists y, agg !! k = Some y /\
                     y == Qmax x0 (Qmax x1 (Qmax x2 (Qmax x3 x4)))).
Proof.
  intros Hm Hb Hlen.
  destruct (rule_base_Ok b m old Hm Hb Hlen)
    as (s0 & s1 & s2 & s3 & s4 & c0 & c1 & c2 & c3 & c4 &
        H0 & H1 & H2 & H3 & H4 & Hc0 & Hc1 & Hc2 & Hc3 & Hc4 & Hrb).
  simpl in Hrb. eexists _, _. split; [exact Hrb |].
  pose proof (lookup_lt_Some _ _ _ Hb) as Hb2.
  split; [by apply list_lookup_insert_eq |].
  split; [by rewrite length_insert |].
  split; [intros i Hi; by rewrite list_lookup_insert_ne |].
  split; [by rewrite !length_insert |].
  split; [intros i Hi; by insert_lookup |].
  split.
  - intros t curve Ht.
    destruct t; simpl in Ht;
      [ exists s0, (np_fmin s0 curve) | exists s1, (np_fmin s1 curve)
      | exists s2, (np_fmin s2 curve) | exists s3, (np_fmin s3 curve)
      | exists s4, (np_fmin s4 curve) ];
      (split; [done |]);
      (split; [simpl; insert_lookup; congruence |]);
      (split; [unfold np_fmin; by rewrite length_fmap |]);
      intros k y Hy; by apply np_fmin_lookup.
  - intros o0 o1 o2 o3 o4 Ho0 Ho1 Ho2 Ho3 Ho4 L1 L2 L3 L4.
    eexists. split; [by eapply fuse_Ok |].
    split; [rewrite !length_zip_with; lia |].
    intros k x0 x1 x2 x3 x4 K0 K1 K2 K3 K4.
    exists (fmax2 x0 (fmax2 x1 (fmax2 x2 (fmax2 x3 x4)))). split.
    + rewrite lookup_zip_with, K0. simpl.
      rewrite lookup_zip_with, K1. simpl.
      rewrite lookup_zip_with, K2. simpl.
      rewrite lookup_zip_with, K3. simpl. rewrite K4. reflexivity.
    + rewrite !fmax2_Qmax. reflexivity.
Qed.

Lemma rule_base_in_place_witness :
  exists b' out,
    rule_base sample_curves sample_f_mat = Ok (b', out) /\ b' !! 2%nat = Some out.
Proof.
  destruct (rule_base_in_place sample_curves sample_f_mat
              [[1; 0; 0; 0; 0]; [0; 1; 0; 0; 0]; [0; 0; 1; 0; 0];
               [0; 0; 0; 1; 0]; [0; 0; 0; 0; 1]])
    as (b' & out & H & Halias & _).
  - split; [reflexivity | repeat constructor].
  - reflexivity.
  - simpl. lia.
  - exists b', out. by split.
Defined.

(** C7, as the specification words it, fails: the list of output curves
    that [rule_base] was given does not hold the same curves after the
    call. *)
Lemma rule_base_replaces_curves :
  ~ (forall b m b' out, rule_base b m = Ok (b', out) -> b' !! 2%nat = b !! 2%nat).
Proof.
  intros H.
  specialize (H sample_curves sample_f_mat
                (<[2%nat := [[0; 0; 0; 0; 0]; [0; 1 # 2; 0; 0; 0]; [0; 0; 0; 0; 0];
                              [0; 0; 0; 1 # 2; 0]; [0; 0; 0; 0; 0]]]> sample_curves)
                [[0; 0; 0; 0; 0]; [0; 1 # 2; 0; 0; 0]; [0; 0; 0; 0; 0];
                 [0; 0; 0; 1 # 2; 0]; [0; 0; 0; 0; 0]]).
  vm_compute in H. specialize (H eq_refl). discriminate H.
Qed.

(** ** [fuzzify] over the interpolation of the specification *)

Lemma fuzzify_Ok `{SkFuzzy} (Input : list Q) (y : list (list Q)) (crisp : Q)
    (f : list Q) :
  fuzzify Input y crisp = Ok f <->
  Forall2 (fun curve d => interp_membership Input curve crisp = Ok d) y f.
Proof. apply comprehension_Ok. Qed.

Lemma interp_from_beyond (x0 y0 : Q) (xs ys : list Q) (xx : Q) :
  length xs = length ys -> Forall (fun x => x < xx) xs ->
  last (y0 :: ys) = Some (interp_from x0 y0 (zip xs ys) xx).
Proof.
  revert x0 y0 ys. induction xs as [| x1 xs IH]; intros x0 y0 ys Hlen Hall.
  - destruct ys; [reflexivity | discriminate].
  - destruct ys as [| y1 ys]; [discriminate |].
    inversion Hall as [| ? ? Hx1 Hxs]; subst. simpl.
    assert (Qle_bool xx x1 = false) as ->.
    { destruct (Qle_bool xx x1) eqn:E; [| done].
      apply Qle_bool_iff in E. lra. }
    rewrite <- (IH x1 y1 ys); [reflexivity | by injection Hlen | done].
Qed.

Lemma sorted_lookup_lt (l : list Q) (i j : nat) (a b : Q) :
  StronglySorted Qlt l -> (i < j)%nat -> l !! i = Some a -> l !! j = Some b -> a < b.
Proof.
  intros Hs. revert i j. induction Hs as [| x l Hs IH Hx]; intros i j Hij Ha Hb.
  - by rewrite lookup_nil in Ha.
  - destruct j as [| j]; [lia |]. destruct i as [| i]; simpl in *.
    + injection Ha as <-. eapply Forall_lookup_1 in Hx; [exact Hx | exact Hb].
    + apply (IH i j); [lia | done | done].
Qed.

Lemma interp_spec_total (Input curve : list Q) (crisp : Q) :
  Input <> [] -> length curve = length Input ->
  exists d, interp_membership_spec Input curve crisp = Ok d.
Proof.
  intros Hne Hlen. unfold interp_membership_spec.
  destruct Input as [| x0 xs]; [done |].
  destruct curve as [| y0 ys]; [discriminate |]. simpl.
  destruct (Qle_bool crisp x0); by eexists.
Qed.

Lemma interp_spec_below (Input curve : list Q) (crisp lo d : Q) (k : nat) :
  StronglySorted Qlt Input -> length curve = length Input ->
  interp_membership_spec Input curve crisp = Ok d ->
  Input !! k = Some lo -> (forall x, x ∈ Input -> lo <= x) -> crisp < lo ->
  curve !! k = Some d.
Proof.
  intros Hs Hlen Hd Hk Hmin Hlt. unfold interp_membership_spec in Hd.
  destruct Input as [| x0 xs]; [by rewrite lookup_nil in Hk |].
  destruct curve as [| y0 ys]; [discriminate |]. simpl in Hd.
  assert (k = 0%nat) as ->.
  { destruct k as [| k]; [done |]. exfalso.
    pose proof (sorted_lookup_lt _ 0 (S k) x0 lo Hs ltac:(lia) eq_refl Hk).
    pose proof (Hmin x0 ltac:(left)). lra. }
  injection Hk as ->.
  assert (Qle_bool crisp lo = true) as E by (apply Qle_bool_iff; lra).
  rewrite E in Hd. by injection Hd as ->.
Qed.

Lemma interp_spec_above (Input curve : list Q) (crisp hi d : Q) (k : nat) :
  StronglySorted Qlt Input -> length curve = length Input ->
  interp_membership_spec Input curve crisp = Ok d ->
  Input !! k = Some hi -> (forall x, x ∈ Input -> x <= hi) -> hi < crisp ->
  curve !! k = Some d.
Proof.
  intros Hs Hlen Hd Hk Hmax Hlt. unfold interp_membership_spec in Hd.
  destruct Input as [| x0 xs]; [by rewrite lookup_nil in Hk |].
  destruct curve as [| y0 ys]; [discriminate |]. simpl in Hd.
  assert (Qle_bool crisp x0 = false) as E.
  { destruct (Qle_bool crisp x0) eqn:E; [| done].
    apply Qle_bool_iff in E. pose proof (Hmax x0 ltac:(left)). lra. }
  rewrite E in Hd. injection Hd as <-.
  assert (k = length xs) as ->.
  { pose proof (lookup_lt_Some _ _ _ Hk) as Hklt. simpl in Hklt.
    destruct (decide (k = length xs)) as [| Hne]; [done |]. exfalso.
    destruct (lookup_lt_is_Some_2 (x0 :: xs) (S k)) as [x' Hx']; [simpl; lia |].
    pose proof (sorted_lookup_lt _ k (S k) hi x' Hs ltac:(lia) Hk Hx').
    pose proof (Hmax x' ltac:(apply list_elem_of_lookup; eauto)). lra. }
  rewrite <- (interp_from_beyond x0 y0 xs ys crisp).
  - rewrite last_lookup. simpl. f_equal. simpl in Hlen. lia.
  - simpl in Hlen. lia.
  - apply Forall_forall. intros x Hx. pose proof (Hmax x ltac:(by right)). lra.
Qed.

(** C3.  Over the interpolation of the specification, for a non-empty
    strictly increasing sequence of domain samples and five curves
    sampled over it, [fuzzify] returns five degrees, the i-th of which is
    the interpolation of the i-th curve at the crisp value; below the
    least sample that degree is the curve's degree at the least sample,
    above the greatest sample it is the curve's degree at the greatest
    sample. *)
Theorem fuzzify_clamps (F : SkFuzzy) (Input : list Q) (y : list (list Q))
    (crisp : Q) :
  @interp_membership F = interp_membership_spec ->
  Input <> [] -> StronglySorted Qlt Input ->
  length y = 5%nat -> Forall (fun curve => length curve = length Input) y ->
  exists f,
    fuzzify Input y crisp = Ok f /\ length f = 5%nat /\
    forall i curve, y !! i = Some curve ->
      exists d,
        f !! i = Some d /\
        interp_membership Input curve crisp = Ok d /\
        (forall lo k, Input !! k = Some lo -> (forall x, x ∈ Input -> lo <= x) ->
           crisp < lo -> curve !! k = Some d) /\
        (forall hi k, Input !! k = Some hi -> (forall x, x ∈ Input -> x <= hi) ->
           hi < crisp -> curve !! k = Some d).
Proof.
  intros HF Hne Hs Hy Hcurves.
  destruct (comprehension_total
              (fun curve => interp_membership Input curve crisp) y) as [f Hf].
  { eapply Forall_impl; [exact Hcurves |]. intros curve Hlen. simpl in Hlen.
    rewrite HF. by apply interp_spec_total. }
  exists f. split; [exact Hf |].
  apply fuzzify_Ok in Hf.
  split; [rewrite <- (Forall2_length _ _ _ Hf); exact Hy |].
  intros i curve Hi.
  destruct (Forall2_lookup_l _ _ _ _ _ Hf Hi) as (d & Hd & Hinterp).
  exists d. split; [done |]. split; [done |].
  pose proof (Forall_lookup_1 _ _ _ _ Hcurves Hi) as Hlen. simpl in Hlen.
  rewrite HF in Hinterp. split.
  - intros lo k Hk Hmin Hlt. by eapply interp_spec_below.
  - intros hi k Hk Hmax Hlt. by eapply interp_spec_above.
Qed.

Lemma fuzzify_clamps_witness :
  exists f,
    @fuzzify rational_fuzz (np_arange (-2) 3)
      [[1; 0; 0; 0; 0]; [0; 1; 0; 0; 0]; [0; 0; 1; 0; 0]; [0; 0; 0; 1; 0];
       [0; 0; 0; 0; 1]] 5 = Ok f /\
    length f = 5%nat.
Proof.
  destruct (fuzzify_clamps rational_fuzz (np_arange (-2) 3)
              [[1; 0; 0; 0; 0]; [0; 1; 0; 0; 0]; [0; 0; 1; 0; 0]; [0; 0; 0; 1; 0];
               [0; 0; 0; 0; 1]] 5) as (f & Hf & Hlen & _).
  - reflexivity.
  - discriminate.
  - vm_compute. repeat constructor.
  - reflexivity.
  - vm_compute. repeat constructor.
  - exists f. by split.
Defined.

(** ** [membership_f]: every family on every call *)

Lemma display_evaluated (D : list (string * outcome (list Q)))
    (entries : list (string * list Q)) :
  comprehension (fun kv => v ← kv.2; Ok (kv.1, v)) D = Ok entries <->
  D = entry_call <$> entries.
Proof.
  rewrite comprehension_Ok. split.
  - induction 1 as [| [k o] [k' v] D entries H _ IH]; [reflexivity |].
    simpl in H. apply bind_Ok_inv in H as (v0 & -> & [= -> ->]).
    rewrite fmap_cons, <- IH. reflexivity.
  - intros ->. induction entries as [| [k v] entries IH]; constructor; done.
Qed.

Lemma display_keys `{SkFuzzy} (x abc : list Q) (a b c d : Q) (abcd : list Q) :
  (family_display x abc a b c d abcd).*1 =
  ["trimf"; "dsigmf"; "gauss2mf"; "gaussmf"; "gbellmf"; "piecemf"; "pimf";
   "psigmf"; "sigmf"; "smf"; "trapmf"; "zmf"].
Proof. reflexivity. Qed.

Lemma membership_f_Ok `{SkFuzzy} (mf : string) (x abc : list Q) (a b c d : Q)
    (abcd : list Q) (y : list Q) :
  membership_f mf x abc a b c d abcd = Ok y <->
  Forall (fun kv => exists v, kv.2 = Ok v) (family_display x abc a b c d abcd) /\
  (mf, Ok y) ∈ family_display x abc a b c d abcd.
Proof.
  unfold membership_f.
  pose proof (display_keys x abc a b c d abcd) as Hkeys.
  set (D := family_display x abc a b c d abcd) in *. clearbody D.
  split.
  - intros Hm. apply bind_Ok_inv in Hm as (entries & HD & Hm).
    apply display_evaluated in HD. subst D.
    destruct (_ !! mf) as [y' |] eqn:Hl; [| discriminate]. injection Hm as ->.
    apply elem_of_list_to_map_2 in Hl. split.
    + apply Forall_fmap, Forall_forall. intros [k v] _. by eexists.
    + apply list_elem_of_fmap. by exists (mf, y).
  - intros [Hall Hin].
    destruct (comprehension_total (fun kv => v ← kv.2; Ok (kv.1, v)) D)
      as [entries HD].
    { eapply Forall_impl; [exact Hall |]. intros [k o] [v Hv]. simpl in *.
      rewrite Hv. by eexists. }
    rewrite HD. simpl. apply display_evaluated in HD. subst D.
    apply list_elem_of_fmap in Hin as ([k v] & [= -> ->] & Hin).
    rewrite (elem_of_list_to_map_1 entries k v); [done | | done].
    rewrite <- list_fmap_compose in Hkeys.
    assert (entries.*1 = (entry_call <$> entries).*1) as ->.
    { rewrite <- list_fmap_compose. reflexivity. }
    rewrite <- list_fmap_compose, Hkeys.
    apply (bool_decide_unpack _). by vm_compute.
Qed.

Lemma display_defaults_stable `{SkFuzzy} (x abc abc' : list Q) (k : string)
    (call : outcome (list Q)) :
  k <> "trimf" -> k <> "piecemf" ->
  (k, call) ∈ family_display x abc 1 2 3 4 [0; 0; 0; 0] ->
  (k, call) ∈ family_display x abc' 1 2 3 4 [0; 0; 0; 0].
Proof.
  intros Ht Hp Hin. apply list_elem_of_In in Hin. apply list_elem_of_In.
  unfold family_display in *. simpl in *.
  repeat (destruct Hin as [[= <- <-] | Hin]; [try congruence; tauto |]).
  destruct Hin.
Qed.

Lemma membership_f_call_Ok `{SkFuzzy} (mf : string) (x abc y : list Q) :
  membership_f_call mf x abc = Ok y <->
  Forall (fun kv => exists v, kv.2 = Ok v)
         (family_display x abc 1 2 3 4 [0; 0; 0; 0]) /\
  (mf, Ok y) ∈ family_display x abc 1 2 3 4 [0; 0; 0; 0].
Proof. exact (membership_f_Ok mf x abc 1 2 3 4 [0; 0; 0; 0] y). Qed.

(** C9.  On the call [membership_f(mf, x, abc)] the display holds the
    twelve entries written out below: the parameters [abc] reach
    [trimf] and [piecemf] only, every other family is called with the
    defaults 1, 2, 3, 4 and [0, 0, 0, 0].  The call returns a curve
    exactly when all twelve entries evaluate and [mf] is the key of the
    returned one; an entry that raises makes the call raise whatever
    [mf] is; and for a family other than [trimf] and [piecemf] the
    returned curve is the same for any other parameters that those two
    accept. *)
Theorem membership_f_defaults (F : SkFuzzy) (mf : string) (x abc : list Q) :
  family_display x abc 1 2 3 4 [0; 0; 0; 0] =
    [ ("trimf", trimf x abc); ("dsigmf", dsigmf x 1 2 3 4);
      ("gauss2mf", gauss2mf x 1 2 3 4); ("gaussmf", gaussmf x 1 2);
      ("gbellmf", gbellmf x 1 2 3); ("piecemf", piecemf x abc);
      ("pimf", pimf x 1 2 3 4); ("psigmf", psigmf x 1 2 3 4);
      ("sigmf", sigmf x 1 2); ("smf", smf x 1 2);
      ("trapmf", trapmf x [0; 0; 0; 0]); ("zmf", zmf x 1 2) ] /\
  (forall y,
     membership_f_call mf x abc = Ok y <->
     Forall (fun kv => exists v, kv.2 = Ok v)
            (family_display x abc 1 2 3 4 [0; 0; 0; 0]) /\
     (mf, Ok y) ∈ family_display x abc 1 2 3 4 [0; 0; 0; 0]) /\
  (forall k e,
     (k, Raise e) ∈ family_display x abc 1 2 3 4 [0; 0; 0; 0] ->
     exists e', membership_f_call mf x abc = Raise e') /\
  (forall abc' y,
     mf <> "trimf" -> mf <> "piecemf" ->
     membership_f_call mf x abc = Ok y ->
     (exists v, trimf x abc' = Ok v) -> (exists v, piecemf x abc' = Ok v) ->
     membership_f_call mf x abc' = Ok y).
Proof.
  split; [reflexivity |].
  split; [intros y; exact (membership_f_call_Ok mf x abc y) |].
  split.
  - intros k e Hin.
    destruct (membership_f_call mf x abc) as [y | e'] eqn:E; [| by eexists].
    exfalso. apply (proj1 (membership_f_call_Ok mf x abc y)) in E as [Hall _].
    apply (proj1 (Forall_forall _ _) Hall) in Hin as [v Hv]. discriminate.
  - intros abc' y Ht Hp Hy [vt Hvt] [vp Hvp].
    apply (proj1 (membership_f_call_Ok mf x abc y)) in Hy as [Hall Hin].
    apply (proj2 (membership_f_call_Ok mf x abc' y)). split.
    + unfold family_display in *.
      repeat (apply Forall_cons_1 in Hall as [? Hall]).
      repeat (constructor; [first [assumption | simpl; eauto] |]).
      constructor.
    + by apply (display_defaults_stable x abc abc').
Qed.

Lemma membership_f_defaults_witness :
  @membership_f_call rational_fuzz "gaussmf" [-1; 0; 1] [0; 1; 2]
    = Ok [0; 0; 0].
Proof.
  destruct (membership_f_defaults rational_fuzz "gaussmf" [-1; 0; 1] [-1; 0; 1])
    as (_ & _ & _ & H).
  apply (H [0; 1; 2] [0; 0; 0]).
  - discriminate.
  - discriminate.
  - vm_compute. reflexivity.
  - by eexists.
  - by eexists.
Defined.

(** ** [Fuzzy.run] *)

Lemma run_Ok `{SkFuzzy} (self : Fuzzy) (fr : frame) (out_final : Q) :
  run_aggregate self = Ok fr -> run_defuzz fr = Ok out_final ->
  run self =
    ([Print "output:" out_final;
      VisualizeOutput (b_store fr) (inputs fr) (output fr) out_final (aggregated fr);
      PltShow],
     Ok PyNone).
Proof. intros Ha Hd. unfold run. rewrite Ha. simpl. rewrite Hd. reflexivity. Qed.

Lemma run_Raise_aggregate `{SkFuzzy} (self : Fuzzy) (e : exn) :
  run_aggregate self = Raise e -> run self = ([], Raise e).
Proof. intros Ha. unfold run. rewrite Ha. reflexivity. Qed.

Lemma run_Raise_defuzz `{SkFuzzy} (self : Fuzzy) (fr : frame) (e : exn) :
  run_aggregate self = Ok fr -> run_defuzz fr = Raise e -> run self = ([], Raise e).
Proof. intros Ha Hd. unfold run. rewrite Ha. simpl. rewrite Hd. reflexivity. Qed.

(** A call that reached line 91 has sampled the output domain. *)
Lemma run_aggregate_output_domain `{SkFuzzy} (self : Fuzzy) (fr : frame) :
  run_aggregate self = Ok fr -> exists in2, inputs fr !! 2%nat = Some in2.
Proof.
  unfold run_aggregate. intros Hr.
  apply bind_Ok_inv in Hr as (ins & _ & Hr).
  apply bind_Ok_inv in Hr as (b & Hb & Hr).
  apply bind_Ok_inv in Hr as (in0 & _ & Hr).
  apply bind_Ok_inv in Hr as (b0 & _ & Hr).
  apply bind_Ok_inv in Hr as (mu_e & _ & Hr).
  apply bind_Ok_inv in Hr as (in1 & _ & Hr).
  apply bind_Ok_inv in Hr as (b1 & _ & Hr).
  apply bind_Ok_inv in Hr as (mu_de & _ & Hr).
  apply bind_Ok_inv in Hr as (r & Hrb & Hr).
  apply bind_Ok_inv in Hr as (agg & _ & [= <-]). simpl.
  unfold rule_base in Hrb.
  apply bind_Ok_inv in Hrb as (s0 & _ & Hrb).
  apply bind_Ok_inv in Hrb as (b' & Hclip & _).
  unfold clip_output in Hclip.
  apply bind_Ok_inv in Hclip as (out & Hout & Hclip).
  apply bind_Ok_inv in Hclip as (curve & Hcurve & _).
  apply index_Ok in Hout, Hcurve.
  apply comprehension_Ok in Hb.
  destruct (Forall2_lookup_r _ _ _ _ _ Hb Hout) as (i & Hi & Hterms).
  assert (i = 2%nat) as ->.
  { pose proof (Forall2_length _ _ _ Hb) as Hlen.
    destruct i as [| [| [| i]]]; simpl in Hi; try done;
      injection Hi as <-;
      pose proof (lookup_lt_Some _ _ _ Hout); simpl in *; lia. }
  unfold curves_of_variable in Hterms.
  apply bind_Ok_inv in Hterms as (ssets & _ & Hterms).
  apply comprehension_Ok in Hterms.
  destruct (Forall2_lookup_r _ _ _ _ _ Hterms Hcurve) as (a & _ & Hcall).
  apply bind_Ok_inv in Hcall as (mf & _ & Hcall).
  apply bind_Ok_inv in Hcall as (x & Hx & _).
  apply index_Ok in Hx. by exists x.
Qed.

(** C4.  Over the defuzzifier of the specification: when [run] has
    reached line 91 and the degrees of the aggregated set sum to zero,
    line 92 raises [DegenerateAggregate], and [run] ends with that
    exception before anything is printed; it does not return a value. *)
Theorem degenerate_aggregate_raised (F : SkFuzzy) (self : Fuzzy) (fr : frame) :
  @defuzz F = defuzz_spec ->
  run_aggregate self = Ok fr ->
  Qsum (aggregated fr) == 0 ->
  run_defuzz fr = Raise DegenerateAggregate /\
  run self = ([], Raise DegenerateAggregate).
Proof.
  intros HF Hfr Hsum.
  assert (run_defuzz fr = Raise DegenerateAggregate) as Hd.
  { destruct (run_aggregate_output_domain self fr Hfr) as [in2 Hin2].
    unfold run_defuzz. apply index_Ok in Hin2. rewrite Hin2. simpl.
    rewrite HF. unfold defuzz_spec.
    apply Qeq_bool_iff in Hsum. by rewrite Hsum. }
  split; [exact Hd | by eapply run_Raise_defuzz].
Qed.

Lemma degenerate_aggregate_raised_witness :
  @run rational_fuzz silent_controller = ([], Raise DegenerateAggregate).
Proof.
  eapply (degenerate_aggregate_raised rational_fuzz silent_controller).
  - reflexivity.
  - vm_compute. reflexivity.
  - reflexivity.
Defined.

(** ** Construction *)

Lemma membership_f_call_trimf_raises `{SkFuzzy} (mf : string) (x a : list Q)
    (e : exn) :
  trimf x a = Raise e -> membership_f_call mf x a = Raise e.
Proof.
  intros Ht. unfold membership_f_call, membership_f, family_display.
  simpl. rewrite Ht. reflexivity.
Qed.

(** C5, as the code has it.  [Fuzzy.__init__] accepts every [mf_types]
    and [f_ssets] and stores them as they are, with both inputs at zero
    and no ranges.  Shape parameters first meet the library when [run]
    evaluates the first term of the error variable, and if the
    triangular family rejects them there, [run] ends with the library's
    exception. *)
Theorem init_stores_unchecked (F : SkFuzzy) (mf_types_arg : list string)
    (f_ssets_arg : list (list (list Q))) :
  exists self,
    __init__ mf_types_arg f_ssets_arg = Ok self /\
    mf_types self = mf_types_arg /\ f_ssets self = f_ssets_arg /\
    error self = 0 /\ delta_e self = 0 /\ io_ranges self = [] /\
    forall (ranges : list (list Q)) (err de : Q) x xs mf mfs a terms fss e,
      domains ranges = Ok (x :: xs) ->
      mf_types_arg = mf :: mfs ->
      f_ssets_arg = (a :: terms) :: fss ->
      trimf x a = Raise e ->
      run {| error := err; delta_e := de; mf_types := mf_types self;
             f_ssets := f_ssets self; io_ranges := ranges |}
        = ([], Raise e).
Proof.
  eexists. split; [reflexivity |]. simpl.
  repeat (split; [reflexivity |]).
  intros ranges err de x xs mf mfs a terms fss e Hdom -> -> Ht.
  apply run_Raise_aggregate. unfold run_aggregate. simpl.
  rewrite Hdom. simpl. unfold curves_of_variable. simpl.
  by rewrite (membership_f_call_trimf_raises mf x a e Ht).
Qed.

Lemma init_stores_unchecked_witness :
  @run rational_fuzz
    {| error := 0; delta_e := 0; mf_types := ["trimf"; "trimf"; "trimf"];
       f_ssets := [short_terms; tri_terms; tri_terms];
       io_ranges := [[-2; 2]; [-2; 2]; [-2; 2]] |}
  = ([], Raise (LibraryError "abc parameter must have exactly three elements")).
Proof.
  destruct (init_stores_unchecked rational_fuzz ["trimf"; "trimf"; "trimf"]
              [short_terms; tri_terms; tri_terms])
    as (self & Hinit & Hmf & Hfs & _ & _ & _ & H).
  rewrite <- Hmf, <- Hfs.
  eapply (H [[-2; 2]; [-2; 2]; [-2; 2]] 0 0).
  - vm_compute. reflexivity.
  - reflexivity.
  - reflexivity.
  - reflexivity.
Defined.

(** C5, as the specification words it, fails: a configuration with a
    triangular term of two parameters is constructed without an error. *)
Lemma init_accepts_wrong_arity :
  ~ (forall mf_types_arg f_ssets_arg,
       wrong_arity mf_types_arg f_ssets_arg ->
       __init__ mf_types_arg f_ssets_arg = Raise InvalidShapeParameters).
Proof.
  intros H.
  specialize (H ["trimf"; "trimf"; "trimf"] [short_terms; tri_terms; tri_terms]).
  discriminate H.
  exists 0%nat, "trimf", short_terms, [-2; -1], 3%nat.
  split; [reflexivity |]. split; [reflexivity |].
  split; [left |]. split; [reflexivity | simpl; lia].
Qed.

(** C6, as the code has it.  When lines 75 to 92 of [run] succeed with
    the crisp value [out_final], the call prints that value, passes it
    with the curves to the visualiser, shows the plot, and returns
    [None]; whatever the configuration, [run] never returns a float. *)
Theorem run_prints_and_returns_none (F : SkFuzzy) (self : Fuzzy) :
  (forall fr out_final,
     run_aggregate self = Ok fr -> run_defuzz fr = Ok out_final ->
     run self =
       ([Print "output:" out_final;
         VisualizeOutput (b_store fr) (inputs fr) (output fr) out_final
                         (aggregated fr);
         PltShow],
        Ok PyNone)) /\
  (forall q, (run self).2 <> Ok (PyFloat q)).
Proof.
  split.
  - intros fr out_final. apply run_Ok.
  - intros q. unfold run.
    destruct (run_aggregate self) as [fr | e]; simpl; [| discriminate].
    destruct (run_defuzz fr) as [out_final | e]; simpl; discriminate.
Qed.

Lemma run_prints_and_returns_none_witness :
  exists b ins out agg,
    @run rational_fuzz (sample_controller 0 0)
      = ([Print "output:" 0; VisualizeOutput b ins out 0 agg; PltShow], Ok PyNone).
Proof.
  destruct (run_prints_and_returns_none rational_fuzz (sample_controller 0 0))
    as [H _].
  eexists _, _, _, _. eapply H.
  - vm_compute. reflexivity.
  - vm_compute. reflexivity.
Defined.

(** C6, as the specification words it, fails: on a configuration on
    which the inference succeeds, [run] does not return the crisp value
    and does not leave the outside world untouched. *)
Lemma run_does_not_return_scalar :
  ~ (forall (F : SkFuzzy) self fr out_final,
       run_aggregate self = Ok fr -> run_defuzz fr = Ok out_final ->
       run self = ([], Ok (PyFloat out_final))).
Proof.
  intros H.
  pose proof (H rational_fuzz (sample_controller 0 0)) as H0.
  vm_compute in H0.
  specialize (H0 _ _ eq_refl eq_refl). discriminate H0.
Qed.

(** ** A controller without ranges *)

Lemma curves_without_inputs `{SkFuzzy} (self : Fuzzy) (i : nat) :
  curves_of_variable self [] i = Ok [] \/
  curves_of_variable self [] i = Raise IndexError.
Proof.
  unfold curves_of_variable, index.
  destruct (f_ssets self !! i) as [ssets |]; simpl; [| by right].
  destruct ssets as [| a ssets]; simpl; [by left |]. right.
  destruct (mf_types self !! i); reflexivity.
Qed.

(** C10.  [Fuzzy.__init__] leaves [io_ranges] empty, and on any
    controller whose [io_ranges] is empty [run] ends with [IndexError]:
    no curve is sampled, nothing is fuzzified and nothing is printed,
    whatever the library and the rest of the configuration are. *)
Theorem run_without_ranges (F : SkFuzzy) (mf_types_arg : list string)
    (f_ssets_arg : list (list (list Q))) :
  (exists self,
     __init__ mf_types_arg f_ssets_arg = Ok self /\ io_ranges self = [] /\
     run self = ([], Raise IndexError)) /\
  (forall self', io_ranges self' = [] -> run self' = ([], Raise IndexError)).
Proof.
  assert (forall self', io_ranges self' = [] -> run self' = ([], Raise IndexError))
    as Hrun.
  { intros self' Hr. apply run_Raise_aggregate. unfold run_aggregate.
    rewrite Hr. unfold domains. simpl.
    destruct (curves_without_inputs self' 0) as [-> | ->]; [| reflexivity]. simpl.
    destruct (curves_without_inputs self' 1) as [-> | ->]; [| reflexivity]. simpl.
    destruct (curves_without_inputs self' 2) as [-> | ->]; reflexivity. }
  split; [| exact Hrun].
  eexists. split; [reflexivity |]. split; [reflexivity |]. by apply Hrun.
Qed.

Lemma run_without_ranges_witness :
  @run rational_fuzz
    {| error := 1; delta_e := -1; mf_types := ["trimf"; "trimf"; "trimf"];
       f_ssets := [tri_terms; tri_terms; tri_terms]; io_ranges := [] |}
  = ([], Raise IndexError).
Proof.
  destruct (run_without_ranges rational_fuzz ["trimf"; "trimf"; "trimf"]
              [tri_terms; tri_terms; tri_terms]) as [_ H].
  apply H. reflexivity.
Defined.

(** * Further properties of the module *)

(** ** Exceptions of comprehensions *)

Lemma bind_Raise_inv {A B} (m : outcome A) (k : A -> outcome B) (e : exn) :
  (a ← m; k a) = Raise e -> m = Raise e \/ exists a, m = Ok a /\ k a = Raise e.
Proof. destruct m as [a | e']; simpl; [eauto | intros [= ->]; by left]. Qed.

Lemma comprehension_length {A B} (f : A -> outcome B) (l : list A) (bs : list B) :
  comprehension f l = Ok bs -> length bs = length l.
Proof.
  intros H. apply comprehension_Ok in H. symmetry. by eapply Forall2_length.
Qed.

Lemma comprehension_ext {A B} (f g : A -> outcome B) (l : list A) :
  (forall a, a ∈ l -> f a = g a) -> comprehension f l = comprehension g l.
Proof.
  induction l as [| a l IH]; intros H; simpl; [reflexivity |].
  rewrite (H a) by left. rewrite IH; [reflexivity |].
  intros a' Ha'. apply H. by right.
Qed.

(** A comprehension raises the exception of its first failing element. *)
Lemma comprehension_first_Raise {A B} (f : A -> outcome B) (l : list A)
    (i : nat) (a : A) (e : exn) :
  l !! i = Some a -> f a = Raise e ->
  (forall j a', (j < i)%nat -> l !! j = Some a' -> exists b, f a' = Ok b) ->
  comprehension f l = Raise e.
Proof.
  revert i. induction l as [| a0 l IH]; intros i Hi Hf Hpre.
  - by rewrite lookup_nil in Hi.
  - destruct i as [| i]; simpl in *.
    + injection Hi as ->. by rewrite Hf.
    + destruct (Hpre 0%nat a0 ltac:(lia) eq_refl) as [b0 ->]. simpl.
      rewrite (IH i Hi Hf); [reflexivity |].
      intros j a' Hj Ha'. apply (Hpre (S j) a'); [lia | done].
Qed.

Lemma comprehension_Raise_elem {A B} (f : A -> outcome B) (l : list A) (e : exn) :
  comprehension f l = Raise e -> exists a, a ∈ l /\ f a = Raise e.
Proof.
  induction l as [| a l IH]; simpl; [discriminate |]. intros H.
  apply bind_Raise_inv in H as [H | (b & Hb & H)].
  - exists a. split; [left | done].
  - apply bind_Raise_inv in H as [H | (bs & _ & H)]; [| discriminate].
    destruct (IH H) as (a' & Ha' & Hf). exists a'. split; [by right | done].
Qed.

(** ** Sampling the domains (line 75) *)





Lemma domains_Ok (ranges : list (list Q)) (ins : list (list Q)) :
  domains ranges = Ok ins <->
  Forall2 (fun var xs => exists lo hi, var !! 0%nat = Some lo /\
                                       var !! 1%nat = Some hi /\
                                       xs = np_arange lo (hi + 1)) ranges ins.
Proof.
  unfold domains. rewrite comprehension_Ok. split; intros H.
  - eapply Forall2_impl; [exact H |]. intros var xs Hv. simpl in Hv.
    apply bind_Ok_inv in Hv as (lo & Hlo & Hv).
    apply bind_Ok_inv in Hv as (hi & Hhi & [= <-]).
    apply index_Ok in Hlo, Hhi. by exists lo, hi.
  - eapply Forall2_impl; [exact H |]. intros var xs (lo & hi & Hlo & Hhi & ->).
    simpl. apply index_Ok in Hlo, Hhi. by rewrite Hlo, Hhi.
Qed.



Lemma range_samples_Raise (var : list Q) (e : exn) :
  (lo ← index var 0; hi ← index var 1; Ok (np_arange lo (hi + 1))) = Raise e ->
  e = IndexError /\ (length var < 2)%nat.
Proof.
  intros H. unfold index in H.
  destruct var as [| lo [| hi more]]; simpl in H; try discriminate;
    injection H as <-; simpl; split; (reflexivity || lia).
Qed.

Lemma domains_Raise (ranges : list (list Q)) (e : exn) :
  domains ranges = Raise e ->
  e = IndexError /\ exists var, var ∈ ranges /\ (length var < 2)%nat.
Proof.
  intros H. apply comprehension_Raise_elem in H as (var & Hin & H).
  apply range_samples_Raise in H as [-> Hlen]. split; [reflexivity | eauto].
Qed.

Lemma domains_short_range (ranges : list (list Q)) (var : list Q) :
  var ∈ ranges -> (length var < 2)%nat -> domains ranges = Raise IndexError.
Proof.
  intros Hin Hlen. destruct (domains ranges) as [ins | e] eqn:E.
  - exfalso. apply domains_Ok in E.
    apply list_elem_of_lookup in Hin as [i Hi].
    destruct (Forall2_lookup_l _ _ _ _ _ E Hi) as (xs & _ & lo & hi & _ & Hhi & _).
    apply lookup_lt_Some in Hhi. lia.
  - apply domains_Raise in E as [-> _]. reflexivity.
Qed.

(** X2.  A range with fewer than two entries anywhere in [io_ranges]
    makes [run] end with [IndexError] on line 75, before any curve is
    computed and whatever the library does; when every range has two
    entries, line 75 yields one domain per range. *)
Theorem run_short_range (F : SkFuzzy) (self : Fuzzy) :
  ((exists var, var ∈ io_ranges self /\ (length var < 2)%nat) ->
   run self = ([], Raise IndexError)) /\
  (Forall (fun var => (2 <= length var)%nat) (io_ranges self) ->
   exists ins, domains (io_ranges self) = Ok ins /\
               length ins = length (io_ranges self)).
Proof.
  split.
  - intros (var & Hin & Hlen). apply run_Raise_aggregate. unfold run_aggregate.
    by rewrite (domains_short_range _ var Hin Hlen).
  - intros Hall. destruct (domains (io_ranges self)) as [ins | e] eqn:E.
    + exists ins. split; [reflexivity |]. by eapply comprehension_length.
    + exfalso. apply domains_Raise in E as (_ & var & Hin & Hlen).
      apply (proj1 (Forall_forall _ _) Hall) in Hin. lia.
Qed.

Lemma run_short_range_witness :
  @run rational_fuzz
    {| error := 0; delta_e := 0; mf_types := ["trimf"; "trimf"; "trimf"];
       f_ssets := [tri_terms; tri_terms; tri_terms];
       io_ranges := [[-2; 2]; [-2; 2]; [2]] |}
  = ([], Raise IndexError).
Proof.
  eapply (proj1 (run_short_range rational_fuzz _)).
  exists [2]. split; [| simpl; lia].
  simpl. right. right. left.
Defined.

(** ** When [rule_base] returns and what it raises *)

Lemma index_Raise {A} (l : list A) (i : nat) (e : exn) :
  index l i = Raise e -> e = IndexError /\ (length l <= i)%nat.
Proof.
  unfold index. destruct (l !! i) eqn:E; [discriminate |].
  intros [= <-]. split; [reflexivity | by apply lookup_ge_None].
Qed.

Lemma cell_Raise (m : list (list Q)) (d e0 : nat) (e : exn) :
  cell m d e0 = Raise e -> e = IndexError.
Proof.
  unfold cell. intros H. apply bind_Raise_inv in H as [H | (row & _ & H)];
    by apply index_Raise in H as [-> _].
Qed.

Lemma aggregated_strength_Raise (m : list (list Q)) (t : term) (e : exn) :
  aggregated_strength m t = Raise e -> e = IndexError.
Proof.
  unfold aggregated_strength, max_cells. intros H.
  apply bind_Raise_inv in H as [H | (vs & Hvs & H)].
  - apply comprehension_Raise_elem in H as (c & _ & H). by eapply cell_Raise.
  - apply comprehension_length in Hvs.
    destruct vs; [| discriminate]. by destruct t.
Qed.

Lemma aggregated_strength_cells (m : list (list Q)) (t : term) (s : Q) :
  aggregated_strength m t = Ok s ->
  forall c, c ∈ output_cells t -> exists v, cell m c.1 c.2 = Ok v.
Proof.
  intros H c Hc. apply max_cells_Ok in H as (vs & HF & _).
  apply list_elem_of_lookup in Hc as [i Hi].
  destruct (Forall2_lookup_l _ _ _ _ _ HF Hi) as (v & _ & Hv). eauto.
Qed.

Lemma cell_has_term (d e : nat) :
  (d < 5)%nat -> (e < 5)%nat -> exists t, (d, e) ∈ output_cells t.
Proof.
  intros Hd He.
  destruct d as [| [| [| [| [| d]]]]]; [| | | | | lia];
    (destruct e as [| [| [| [| [| e]]]]]; [| | | | | lia]);
    first [ exists NM; apply (bool_decide_unpack _); by vm_compute
          | exists NS; apply (bool_decide_unpack _); by vm_compute
          | exists ZE; apply (bool_decide_unpack _); by vm_compute
          | exists PS; apply (bool_decide_unpack _); by vm_compute
          | exists PM; apply (bool_decide_unpack _); by vm_compute ].
Qed.

Lemma strengths_from_cells (m : list (list Q)) :
  (forall d e, (d < 5)%nat -> (e < 5)%nat -> exists v, cell m d e = Ok v) ->
  forall t, exists s, aggregated_strength m t = Ok s.
Proof.
  intros Hcells t. apply max_cells_total; [by destruct t |].
  intros c Hc. apply output_cells_range in Hc as [H1 H2]. by apply Hcells.
Qed.

Lemma clip_output_step (b b1 : list (list (list Q))) (i : nat) (s : Q) :
  clip_output b i s = Ok b1 ->
  exists out curve,
    b !! 2%nat = Some out /\ out !! i = Some curve /\
    b1 = <[2%nat := <[i := np_fmin s curve]> out]> b.
Proof.
  unfold clip_output. intros H.
  apply bind_Ok_inv in H as (out & Hout & H).
  apply bind_Ok_inv in H as (curve & Hcurve & [= <-]).
  apply index_Ok in Hout, Hcurve. by exists out, curve.
Qed.

Lemma clip_output_Raise (b : list (list (list Q))) (i : nat) (s : Q) (e : exn) :
  clip_output b i s = Raise e -> e = IndexError.
Proof.
  unfold clip_output. intros H.
  apply bind_Raise_inv in H as [H | (out & _ & H)];
    [by apply index_Raise in H as [-> _] |].
  apply bind_Raise_inv in H as [H | (curve & _ & H)]; [| discriminate].
  by apply index_Raise in H as [-> _].
Qed.

Lemma rule_base_Ok_cells (b : list (list (list Q))) (m : list (list Q))
    (old : list (list Q)) :
  (forall t, exists s, aggregated_strength m t = Ok s) ->
  b !! 2%nat = Some old -> (5 <= length old)%nat ->
  exists s0 s1 s2 s3 s4 c0 c1 c2 c3 c4,
    aggregated_strength m NM = Ok s0 /\ aggregated_strength m NS = Ok s1 /\
    aggregated_strength m ZE = Ok s2 /\ aggregated_strength m PS = Ok s3 /\
    aggregated_strength m PM = Ok s4 /\
    old !! 0%nat = Some c0 /\ old !! 1%nat = Some c1 /\ old !! 2%nat = Some c2 /\
    old !! 3%nat = Some c3 /\ old !! 4%nat = Some c4 /\
    let out := <[4%nat := np_fmin s4 c4]> (<[3%nat := np_fmin s3 c3]>
                 (<[2%nat := np_fmin s2 c2]> (<[1%nat := np_fmin s1 c1]>
                    (<[0%nat := np_fmin s0 c0]> old)))) in
    rule_base b m = Ok (<[2%nat := out]> b, out).
Proof.
  intros Hm Hb Hlen.
  destruct (Hm NM) as [s0 H0]. destruct (Hm NS) as [s1 H1].
  destruct (Hm ZE) as [s2 H2]. destruct (Hm PS) as [s3 H3].
  destruct (Hm PM) as [s4 H4].
  destruct (lookup_lt_is_Some_2 old 0) as [c0 Hc0]; [lia |].
  destruct (lookup_lt_is_Some_2 old 1) as [c1 Hc1]; [lia |].
  destruct (lookup_lt_is_Some_2 old 2) as [c2 Hc2]; [lia |].
  destruct (lookup_lt_is_Some_2 old 3) as [c3 Hc3]; [lia |].
  destruct (lookup_lt_is_Some_2 old 4) as [c4 Hc4]; [lia |].
  exists s0, s1, s2, s3, s4, c0, c1, c2, c3, c4.
  repeat (split; [done |]). intros out.
  pose proof (lookup_lt_Some _ _ _ Hb) as Hb2.
  unfold rule_base.
  rewrite H0. simpl. rewrite (clip_output_Ok b 0 s0 old c0 Hb Hc0). simpl.
  rewrite H1. simpl.
  erewrite (clip_output_Ok _ 1 s1); [| by apply list_lookup_insert_eq | by insert_lookup].
  simpl. rewrite list_insert_insert_eq.
  rewrite H2. simpl.
  erewrite (clip_output_Ok _ 2 s2); [| by apply list_lookup_insert_eq | by insert_lookup].
  simpl. rewrite list_insert_insert_eq.
  rewrite H3. simpl.
  erewrite (clip_output_Ok _ 3 s3); [| by apply list_lookup_insert_eq | by insert_lookup].
  simpl. rewrite list_insert_insert_eq.
  rewrite H4. simpl.
  erewrite (clip_output_Ok _ 4 s4); [| by apply list_lookup_insert_eq | by insert_lookup].
  simpl. rewrite list_insert_insert_eq.
  unfold index. rewrite list_lookup_insert_eq by done. reflexivity.
Qed.

Lemma rule_base_needs (b : list (list (list Q))) (m : list (list Q))
    (r : list (list (list Q)) * list (list Q)) :
  rule_base b m = Ok r ->
  (forall d e, (d < 5)%nat -> (e < 5)%nat -> exists v, cell m d e = Ok v) /\
  exists old, b !! 2%nat = Some old /\ (5 <= length old)%nat.
Proof.
  unfold rule_base. intros H.
  apply bind_Ok_inv in H as (s0 & H0 & H).
  apply bind_Ok_inv in H as (b1 & Hb1 & H).
  apply bind_Ok_inv in H as (s1 & H1 & H).
  apply bind_Ok_inv in H as (b2 & Hb2 & H).
  apply bind_Ok_inv in H as (s2 & H2 & H).
  apply bind_Ok_inv in H as (b3 & Hb3 & H).
  apply bind_Ok_inv in H as (s3 & H3 & H).
  apply bind_Ok_inv in H as (b4 & Hb4 & H).
  apply bind_Ok_inv in H as (s4 & H4 & H).
  apply bind_Ok_inv in H as (b5 & Hb5 & _).
  split.
  - intros d e Hd He. destruct (cell_has_term d e Hd He) as [t Ht].
    destruct t;
      [ exact (aggregated_strength_cells m NM s0 H0 (d, e) Ht)
      | exact (aggregated_strength_cells m NS s1 H1 (d, e) Ht)
      | exact (aggregated_strength_cells m ZE s2 H2 (d, e) Ht)
      | exact (aggregated_strength_cells m PS s3 H3 (d, e) Ht)
      | exact (aggregated_strength_cells m PM s4 H4 (d, e) Ht) ].
  - apply clip_output_step in Hb1 as (o0 & k0 & Ho0 & _ & ->).
    apply clip_output_step in Hb2 as (o1 & k1 & Ho1 & _ & ->).
    apply clip_output_step in Hb3 as (o2 & k2 & Ho2 & _ & ->).
    apply clip_output_step in Hb4 as (o3 & k3 & Ho3 & _ & ->).
    apply clip_output_step in Hb5 as (o4 & k4 & Ho4 & Hk4 & _).
    pose proof (lookup_lt_Some _ _ _ Ho0) as Hlt.
    rewrite list_lookup_insert_eq in Ho1 by done. injection Ho1 as <-.
    rewrite list_lookup_insert_eq in Ho2 by (by rewrite length_insert).
    injection Ho2 as <-.
    rewrite list_lookup_insert_eq in Ho3 by (by rewrite !length_insert).
    injection Ho3 as <-.
    rewrite list_lookup_insert_eq in Ho4 by (by rewrite !length_insert).
    injection Ho4 as <-.
    apply lookup_lt_Some in Hk4. rewrite !length_insert in Hk4.
    exists o0. split; [done | lia].
Qed.

Lemma rule_base_Raise (b : list (list (list Q))) (m : list (list Q)) (e : exn) :
  rule_base b m = Raise e -> e = IndexError.
Proof.
  unfold rule_base. intros H.
  repeat (apply bind_Raise_inv in H as [H | (? & _ & H)];
          [ first [ by eapply aggregated_strength_Raise
                  | by eapply clip_output_Raise
                  | by apply index_Raise in H as [-> _] ] |]).
  discriminate.
Qed.

(** X6.  [rule_base] returns exactly when the matrix has a cell at every
    position [d][e] with [d] and [e] below five and [b] has a third
    element with at least five curves; in every other case it raises, and
    the only exception it raises is [IndexError]. *)
Theorem rule_base_returns_iff (b : list (list (list Q))) (m : list (list Q)) :
  ((exists r, rule_base b m = Ok r) <->
   (forall d e, (d < 5)%nat -> (e < 5)%nat -> exists v, cell m d e = Ok v) /\
   (exists old, b !! 2%nat = Some old /\ (5 <= length old)%nat)) /\
  (forall e, rule_base b m = Raise e -> e = IndexError).
Proof.
  split; [| apply rule_base_Raise]. split.
  - intros [r Hr]. by eapply rule_base_needs.
  - intros [Hcells (old & Hb & Hlen)].
    destruct (rule_base_Ok_cells b m old (strengths_from_cells m Hcells) Hb Hlen)
      as (s0 & s1 & s2 & s3 & s4 & c0 & c1 & c2 & c3 & c4 & H).
    destruct H as (_ & _ & _ & _ & _ & _ & _ & _ & _ & _ & H). eauto.
Qed.

Lemma rule_base_returns_iff_witness :
  rule_base [[]; []] sample_f_mat = Raise IndexError.
Proof.
  destruct (rule_base_returns_iff [[]; []] sample_f_mat) as [_ H].
  destruct (rule_base [[]; []] sample_f_mat) as [r | e] eqn:E.
  - vm_compute in E. discriminate E.
  - by rewrite (H e eq_refl).
Defined.

(** ** Clipping twice *)

Lemma fmin2_idem (s y : Q) : fmin2 s (fmin2 s y) = fmin2 s y.
Proof.
  unfold fmin2. destruct (Qle_bool s y) eqn:E; [| by rewrite E].
  assert (Qle_bool s s = true) as -> by (apply Qle_bool_iff; lra). done.
Qed.

Lemma np_fmin_idem (s : Q) (curve : list Q) :
  np_fmin s (np_fmin s curve) = np_fmin s curve.
Proof.
  unfold np_fmin. rewrite <- list_fmap_compose. apply list_fmap_ext.
  intros i y _. apply fmin2_idem.
Qed.

(** X5.  Clipping is idempotent: when [rule_base] has returned, calling
    it again on the updated [b] with the same matrix returns the same
    list and leaves [b] as the first call left it. *)
Theorem rule_base_idempotent (b b' : list (list (list Q))) (m : list (list Q))
    (out : list (list Q)) :
  rule_base b m = Ok (b', out) -> rule_base b' m = Ok (b', out).
Proof.
  intros H. destruct (rule_base_needs b m _ H) as [Hcells (old & Hb & Hlen)].
  pose proof (strengths_from_cells m Hcells) as Hs.
  destruct (rule_base_Ok_cells b m old Hs Hb Hlen)
    as (s0 & s1 & s2 & s3 & s4 & c0 & c1 & c2 & c3 & c4 &
        H0 & H1 & H2 & H3 & H4 & Hc0 & Hc1 & Hc2 & Hc3 & Hc4 & Hrb).
  simpl in Hrb. rewrite Hrb in H. injection H as <- <-.
  set (O := <[4%nat:=np_fmin s4 c4]> (<[3%nat:=np_fmin s3 c3]>
              (<[2%nat:=np_fmin s2 c2]> (<[1%nat:=np_fmin s1 c1]>
                 (<[0%nat:=np_fmin s0 c0]> old))))) in *.
  assert (O !! 0%nat = Some (np_fmin s0 c0)) as O0 by (subst O; insert_lookup).
  assert (O !! 1%nat = Some (np_fmin s1 c1)) as O1 by (subst O; insert_lookup).
  assert (O !! 2%nat = Some (np_fmin s2 c2)) as O2 by (subst O; insert_lookup).
  assert (O !! 3%nat = Some (np_fmin s3 c3)) as O3 by (subst O; insert_lookup).
  assert (O !! 4%nat = Some (np_fmin s4 c4)) as O4 by (subst O; insert_lookup).
  assert (length O = length old) as HO by (subst O; by rewrite !length_insert).
  clearbody O.
  pose proof (lookup_lt_Some _ _ _ Hb) as Hb2.
  destruct (rule_base_Ok_cells (<[2%nat:=O]> b) m O Hs)
    as (t0 & t1 & t2 & t3 & t4 & k0 & k1 & k2 & k3 & k4 &
        T0 & T1 & T2 & T3 & T4 & K0 & K1 & K2 & K3 & K4 & Hrb').
  { by apply list_lookup_insert_eq. }
  { lia. }
  simpl in Hrb'. rewrite Hrb'.
  assert (t0 = s0) as -> by congruence. assert (t1 = s1) as -> by congruence.
  assert (t2 = s2) as -> by congruence. assert (t3 = s3) as -> by congruence.
  assert (t4 = s4) as -> by congruence.
  assert (k0 = np_fmin s0 c0) as -> by congruence.
  assert (k1 = np_fmin s1 c1) as -> by congruence.
  assert (k2 = np_fmin s2 c2) as -> by congruence.
  assert (k3 = np_fmin s3 c3) as -> by congruence.
  assert (k4 = np_fmin s4 c4) as -> by congruence.
  rewrite !np_fmin_idem.
  rewrite (list_insert_id O 0) by done. rewrite (list_insert_id O 1) by done.
  rewrite (list_insert_id O 2) by done. rewrite (list_insert_id O 3) by done.
  rewrite (list_insert_id O 4) by done.
  by rewrite list_insert_insert_eq.
Qed.

Lemma rule_base_idempotent_witness :
  exists b' out,
    rule_base sample_curves sample_f_mat = Ok (b', out) /\
    rule_base b' sample_f_mat = Ok (b', out).
Proof.
  destruct (rule_base sample_curves sample_f_mat) as [[b' out] | e] eqn:E.
  - exists b', out. split; [reflexivity |].
    exact (rule_base_idempotent _ _ _ _ E).
  - vm_compute in E. discriminate E.
Defined.

(** ** Vectors of any length *)

Lemma cell_fuzzy_matrix (mu_e mu_de : list Q) (d e : nat) :
  cell (fuzzy_matrix mu_e mu_de) d e =
    match mu_de !! d, mu_e !! e with
    | Some b, Some a => Ok (py_min a b)
    | _, _ => Raise IndexError
    end.
Proof.
  unfold cell, fuzzy_matrix, index. rewrite list_lookup_fmap.
  destruct (mu_de !! d) as [b |]; simpl; [| reflexivity].
  rewrite list_lookup_fmap. by destruct (mu_e !! e).
Qed.

(** X12.  For vectors of any lengths [fuzzy_matrix] has one row per
    delta-error degree and one column per error degree; the subscript
    [f_mat[d][e]] yields [min(muval_e[e], muval_de[d])] inside these
    bounds and raises [IndexError] outside them. *)
Theorem fuzzy_matrix_bounds (mu_e mu_de : list Q) (d e : nat) :
  length (fuzzy_matrix mu_e mu_de) = length mu_de /\
  Forall (fun row => length row = length mu_e) (fuzzy_matrix mu_e mu_de) /\
  ((d < length mu_de)%nat -> (e < length mu_e)%nat ->
   exists a b, mu_e !! e = Some a /\ mu_de !! d = Some b /\
               cell (fuzzy_matrix mu_e mu_de) d e = Ok (py_min a b)) /\
  ((length mu_de <= d)%nat \/ (length mu_e <= e)%nat ->
   cell (fuzzy_matrix mu_e mu_de) d e = Raise IndexError).
Proof.
  destruct (fuzzy_matrix_shape mu_e mu_de) as [Hlen Hrows].
  split; [done |]. split; [done |]. rewrite cell_fuzzy_matrix. split.
  - intros Hd He.
    destruct (lookup_lt_is_Some_2 mu_e e He) as [a Ha].
    destruct (lookup_lt_is_Some_2 mu_de d Hd) as [b Hb].
    exists a, b. by rewrite Ha, Hb.
  - intros [Hd | He].
    + by rewrite (lookup_ge_None_2 mu_de d).
    + rewrite (lookup_ge_None_2 mu_e e) by done. by destruct (mu_de !! d).
Qed.

Lemma fuzzy_matrix_bounds_witness :
  cell (fuzzy_matrix [0; 1 # 2] [1; 1; 1 # 4]) 1 2 = Raise IndexError.
Proof.
  destruct (fuzzy_matrix_bounds [0; 1 # 2] [1; 1; 1 # 4] 1 2) as (_ & _ & _ & H).
  apply H. right. simpl. lia.
Defined.

Lemma aggregated_strength_ext (m m' : list (list Q)) (t : term) :
  (forall d e, (d < 5)%nat -> (e < 5)%nat -> cell m d e = cell m' d e) ->
  aggregated_strength m t = aggregated_strength m' t.
Proof.
  intros H. unfold aggregated_strength, max_cells.
  rewrite (comprehension_ext (fun c => cell m c.1 c.2) (fun c => cell m' c.1 c.2));
    [reflexivity |].
  intros c Hc. apply output_cells_range in Hc as [H1 H2]. by apply H.
Qed.

Lemma rule_base_ext (b : list (list (list Q))) (m m' : list (list Q)) :
  (forall d e, (d < 5)%nat -> (e < 5)%nat -> cell m d e = cell m' d e) ->
  rule_base b m = rule_base b m'.
Proof.
  intros H. unfold rule_base.
  rewrite (aggregated_strength_ext m m' NM H), (aggregated_strength_ext m m' NS H),
    (aggregated_strength_ext m m' ZE H), (aggregated_strength_ext m m' PS H),
    (aggregated_strength_ext m m' PM H).
  reflexivity.
Qed.

(** X4.  Only the first five degrees of each input take part in the
    rules: two pairs of degree vectors that agree on their first five
    entries give the same result of [rule_base], success or exception,
    whatever further degrees they hold. *)
Theorem later_degrees_ignored (b : list (list (list Q)))
    (mu_e mu_e' mu_de mu_de' : list Q) :
  take 5 mu_e = take 5 mu_e' -> take 5 mu_de = take 5 mu_de' ->
  rule_base b (fuzzy_matrix mu_e mu_de) = rule_base b (fuzzy_matrix mu_e' mu_de').
Proof.
  intros He Hde. apply rule_base_ext. intros d e Hd He5.
  rewrite !cell_fuzzy_matrix.
  rewrite <- (lookup_take_lt mu_de 5 d Hd), <- (lookup_take_lt mu_e 5 e He5).
  rewrite <- (lookup_take_lt mu_de' 5 d Hd), <- (lookup_take_lt mu_e' 5 e He5).
  by rewrite He, Hde.
Qed.

Lemma later_degrees_ignored_witness :
  rule_base sample_curves (fuzzy_matrix [0; 0; 1 # 2; 1 # 2; 0; 1] [0; 1; 0; 0; 0])
  = rule_base sample_curves (fuzzy_matrix [0; 0; 1 # 2; 1 # 2; 0] [0; 1; 0; 0; 0; 1; 1]).
Proof. apply later_degrees_ignored; reflexivity. Defined.

(** ** What clipping and fusing preserve *)

Lemma Forall_zip_with_closed (R : Q -> Prop) (f : Q -> Q -> Q) (xs ys : list Q) :
  (forall x y, R x -> R y -> R (f x y)) ->
  Forall R xs -> Forall R ys -> Forall R (zip_with f xs ys).
Proof.
  intros Hf Hxs. revert ys. induction Hxs as [| x xs Hx _ IH]; intros ys Hys.
  - constructor.
  - destruct Hys as [| y ys Hy Hys]; simpl; constructor; [by apply Hf | by apply IH].
Qed.

Section Composer.
Variables P C R : Q -> Prop.
Hypothesis clip_closed : forall s y, P s -> C y -> R (fmin2 s y).
Hypothesis fuse_closed : forall x y, R x -> R y -> R (fmax2 x y).

Lemma np_fmin_closed (s : Q) (curve : list Q) :
  P s -> Forall C curve -> Forall R (np_fmin s curve).
Proof.
  intros Hs Hc. unfold np_fmin. apply Forall_fmap.
  eapply Forall_impl; [exact Hc |]. intros y Hy. by apply clip_closed.
Qed.

Lemma composer_closed (b : list (list (list Q))) (m : list (list Q))
    (old : list (list Q)) (n : nat) :
  (forall t, exists s, aggregated_strength m t = Ok s /\ P s) ->
  b !! 2%nat = Some old -> (5 <= length old)%nat ->
  Forall (fun curve => length curve = n /\ Forall C curve) old ->
  exists b' out agg,
    rule_base b m = Ok (b', out) /\ fuse out = Ok agg /\ length agg = n /\
    (forall t clipped, out !! term_index t = Some clipped -> Forall R clipped) /\
    Forall R agg.
Proof.
  intros Hm Hb Hlen Hold.
  assert (forall t, exists s, aggregated_strength m t = Ok s) as Hm'.
  { intros t. destruct (Hm t) as (s & Hs & _). eauto. }
  destruct (rule_base_Ok_cells b m old Hm' Hb Hlen)
    as (s0 & s1 & s2 & s3 & s4 & c0 & c1 & c2 & c3 & c4 &
        H0 & H1 & H2 & H3 & H4 & Hc0 & Hc1 & Hc2 & Hc3 & Hc4 & Hrb).
  simpl in Hrb.
  assert (P s0 /\ P s1 /\ P s2 /\ P s3 /\ P s4) as (P0 & P1 & P2 & P3 & P4).
  { repeat split;
      [ destruct (Hm NM) as (s & Hs & HP) | destruct (Hm NS) as (s & Hs & HP)
      | destruct (Hm ZE) as (s & Hs & HP) | destruct (Hm PS) as (s & Hs & HP)
      | destruct (Hm PM) as (s & Hs & HP) ];
      congruence. }
  destruct (Forall_lookup_1 _ _ _ _ Hold Hc0) as [L0 C0].
  destruct (Forall_lookup_1 _ _ _ _ Hold Hc1) as [L1 C1].
  destruct (Forall_lookup_1 _ _ _ _ Hold Hc2) as [L2 C2].
  destruct (Forall_lookup_1 _ _ _ _ Hold Hc3) as [L3 C3].
  destruct (Forall_lookup_1 _ _ _ _ Hold Hc4) as [L4 C4].
  pose proof (np_fmin_closed s0 c0 P0 C0) as R0.
  pose proof (np_fmin_closed s1 c1 P1 C1) as R1.
  pose proof (np_fmin_closed s2 c2 P2 C2) as R2.
  pose proof (np_fmin_closed s3 c3 P3 C3) as R3.
  pose proof (np_fmin_closed s4 c4 P4 C4) as R4.
  eexists _, _, _. split; [exact Hrb |]. split.
  { apply (fuse_Ok (np_fmin s0 c0) (np_fmin s1 c1) (np_fmin s2 c2)
                   (np_fmin s3 c3) (np_fmin s4 c4));
      try (by insert_lookup); unfold np_fmin; rewrite !length_fmap; congruence. }
  split.
  { unfold np_fmin. rewrite !length_zip_with, !length_fmap. lia. }
  split.
  - intros t clipped Ht. destruct t; simpl in Ht;
      revert Ht; insert_lookup; intros [= <-]; assumption.
  - repeat (apply Forall_zip_with_closed; [exact fuse_closed | assumption |]).
    assumption.
Qed.
End Composer.

Lemma fmin2_either (s y : Q) : fmin2 s y = s \/ fmin2 s y = y.
Proof. unfold fmin2. destruct (Qle_bool s y); auto. Qed.

Lemma fmax2_either (x y : Q) : fmax2 x y = x \/ fmax2 x y = y.
Proof. unfold fmax2. destruct (Qle_bool y x); auto. Qed.

(** X7.  Degrees stay degrees: from two vectors of five degrees in
    [0, 1] and five or more output curves of one length with samples in
    [0, 1], [rule_base] returns, every sample of the five clipped curves
    lies in [0, 1], line 91 fuses them, and every sample of the
    aggregated set lies in [0, 1]. *)
Theorem degrees_preserved (b : list (list (list Q))) (mu_e mu_de : list Q)
    (old : list (list Q)) (n : nat) :
  length mu_e = 5%nat -> length mu_de = 5%nat ->
  Forall degree mu_e -> Forall degree mu_de ->
  b !! 2%nat = Some old -> (5 <= length old)%nat ->
  Forall (fun curve => length curve = n /\ Forall degree curve) old ->
  exists b' out agg,
    rule_base b (fuzzy_matrix mu_e mu_de) = Ok (b', out) /\
    fuse out = Ok agg /\ length agg = n /\
    (forall t clipped, out !! term_index t = Some clipped -> Forall degree clipped) /\
    Forall degree agg.
Proof.
  intros Le Lde De Dde Hb Hlen Hold.
  apply (composer_closed degree degree degree) with (old := old); try done.
  - intros s y Hs Hy. by destruct (fmin2_either s y) as [-> | ->].
  - intros x y Hx Hy. by destruct (fmax2_either x y) as [-> | ->].
  - intros t.
    destruct (aggregated_strength_matrix mu_e mu_de t Le Lde)
      as (v & Hv & (e & d & a & b0 & _ & Ha & Hb0 & ->) & _).
    exists (py_min a b0). split; [done |].
    apply py_min_degree.
    + exact (Forall_lookup_1 _ _ _ _ De Ha).
    + exact (Forall_lookup_1 _ _ _ _ Dde Hb0).
Qed.

Lemma degrees_preserved_witness :
  exists b' out agg,
    rule_base sample_curves (fuzzy_matrix [0; 0; 1 # 2; 1 # 2; 0] [0; 1; 0; 0; 0])
      = Ok (b', out) /\
    fuse out = Ok agg /\ Forall degree agg.
Proof.
  destruct (degrees_preserved sample_curves [0; 0; 1 # 2; 1 # 2; 0] [0; 1; 0; 0; 0]
              [[1; 0; 0; 0; 0]; [0; 1; 0; 0; 0]; [0; 0; 1; 0; 0];
               [0; 0; 0; 1; 0]; [0; 0; 0; 0; 1]] 5)
    as (b' & out & agg & Hrb & Hfuse & _ & _ & Hagg).
  - reflexivity.
  - reflexivity.
  - degrees.
  - degrees.
  - reflexivity.
  - simpl. lia.
  - repeat (constructor; [split; [reflexivity | degrees] |]). constructor.
  - exists b', out, agg. by repeat split.
Defined.

Lemma Qsum_zero (l : list Q) : Forall (fun y => y == 0) l -> Qsum l == 0.
Proof.
  induction 1 as [| y l Hy _ IH]; simpl; [reflexivity |]. rewrite Hy, IH. ring.
Qed.

Lemma py_min_zero (a b : Q) :
  (a == 0 /\ 0 <= b) \/ (0 <= a /\ b == 0) -> py_min a b == 0.
Proof.
  intros H. rewrite py_min_Qmin.
  destruct H as [[Ha Hb] | [Ha Hb]].
  - rewrite Q.min_l; [done | lra].
  - rewrite Q.min_r; [done | lra].
Qed.

(** X8.  When no rule fires the aggregated set is empty: if the five
    error degrees are all zero and the delta-error degrees are not
    negative (or the other way round), and the output curves have no
    negative sample, then every aggregated strength is zero,
    [rule_base] clips the five curves to zero, and the fused set is
    zero at every sample, so that its degrees sum to zero. *)
Theorem no_rule_fires (b : list (list (list Q))) (mu_e mu_de : list Q)
    (old : list (list Q)) (n : nat) :
  length mu_e = 5%nat -> length mu_de = 5%nat ->
  (Forall (fun a => a == 0) mu_e /\ Forall (fun d => 0 <= d) mu_de) \/
  (Forall (fun a => 0 <= a) mu_e /\ Forall (fun d => d == 0) mu_de) ->
  b !! 2%nat = Some old -> (5 <= length old)%nat ->
  Forall (fun curve => length curve = n /\ Forall (fun y => 0 <= y) curve) old ->
  (forall t, exists s,
     aggregated_strength (fuzzy_matrix mu_e mu_de) t = Ok s /\ s == 0) /\
  exists b' out agg,
    rule_base b (fuzzy_matrix mu_e mu_de) = Ok (b', out) /\
    fuse out = Ok agg /\ length agg = n /\
    (forall t clipped, out !! term_index t = Some clipped ->
       Forall (fun y => y == 0) clipped) /\
    Forall (fun y => y == 0) agg /\
    Qsum agg == 0.
Proof.
  intros Le Lde Hzero Hb Hlen Hold.
  assert (forall t, exists s,
            aggregated_strength (fuzzy_matrix mu_e mu_de) t = Ok s /\ s == 0) as Hs.
  { intros t.
    destruct (aggregated_strength_matrix mu_e mu_de t Le Lde)
      as (v & Hv & (e & d & a & b0 & _ & Ha & Hb0 & ->) & _).
    exists (py_min a b0). split; [done |]. apply py_min_zero.
    destruct Hzero as [[He Hde] | [He Hde]]; [left | right];
      (split; [exact (Forall_lookup_1 _ _ _ _ He Ha)
              | exact (Forall_lookup_1 _ _ _ _ Hde Hb0)]). }
  split; [exact Hs |].
  destruct (composer_closed (fun s => s == 0) (fun y => 0 <= y) (fun y => y == 0))
    with (b := b) (m := fuzzy_matrix mu_e mu_de) (old := old) (n := n)
    as (b' & out & agg & Hrb & Hfuse & Hn & Hout & Hagg); try done.
  - intros s y Hs0 Hy. unfold fmin2.
    assert (Qle_bool s y = true) as -> by (apply Qle_bool_iff; lra). done.
  - intros x y Hx Hy. by destruct (fmax2_either x y) as [-> | ->].
  - exists b', out, agg. repeat (split; [done |]). by apply Qsum_zero.
Qed.

Lemma no_rule_fires_witness :
  exists b' out agg,
    rule_base sample_curves (fuzzy_matrix [0; 0; 0; 0; 0] [0; 1; 0; 0; 0])
      = Ok (b', out) /\
    fuse out = Ok agg /\ Qsum agg == 0.
Proof.
  destruct (no_rule_fires sample_curves [0; 0; 0; 0; 0] [0; 1; 0; 0; 0]
              [[1; 0; 0; 0; 0]; [0; 1; 0; 0; 0]; [0; 0; 1; 0; 0];
               [0; 0; 0; 1; 0]; [0; 0; 0; 0; 1]] 5)
    as (_ & b' & out & agg & Hrb & Hfuse & _ & _ & _ & Hsum).
  - reflexivity.
  - reflexivity.
  - left. split; repeat constructor; lra.
  - reflexivity.
  - simpl. lia.
  - repeat (constructor; [split; [reflexivity | repeat constructor; lra] |]).
    constructor.
  - exists b', out, agg. by repeat split.
Defined.

(** ** Line 91 *)

(** X13.  Line 91 needs five curves and reads no more than five: with
    fewer than five curves it raises [IndexError], and curves after the
    fifth do not change its result. *)
Theorem fuse_first_five (out extra : list (list Q)) :
  ((length out < 5)%nat -> fuse out = Raise IndexError) /\
  ((5 <= length out)%nat -> fuse (out ++ extra) = fuse out).
Proof.
  split.
  - intros H. unfold fuse.
    destruct out as [| o0 [| o1 [| o2 [| o3 [| o4 rest]]]]]; simpl in *;
      try reflexivity; lia.
  - intros H. unfold fuse, index. by rewrite !lookup_app_l by lia.
Qed.

Lemma fuse_first_five_witness :
  fuse [[1; 0]; [0; 1]; [0; 0]; [1 # 2; 0]] = Raise IndexError.
Proof.
  apply (proj1 (fuse_first_five [[1; 0]; [0; 1]; [0; 0]; [1 # 2; 0]] [])).
  simpl. lia.
Defined.

(** ** Strengths follow the degrees *)

Lemma py_min_monotone (a a' b b' : Q) :
  a <= a' -> b <= b' -> py_min a b <= py_min a' b'.
Proof.
  intros Ha Hb. rewrite !py_min_Qmin. by apply Q.min_le_compat.
Qed.

(** X14.  Raising input degrees never lowers an aggregated strength: for
    vectors of five degrees, if no error degree and no delta-error degree
    is lowered, the strength of every output term is at least what it
    was. *)
Theorem strengths_follow_degrees (mu_e mu_e' mu_de mu_de' : list Q) (t : term) :
  length mu_e = 5%nat -> length mu_de = 5%nat ->
  Forall2 Qle mu_e mu_e' -> Forall2 Qle mu_de mu_de' ->
  exists s s',
    aggregated_strength (fuzzy_matrix mu_e mu_de) t = Ok s /\
    aggregated_strength (fuzzy_matrix mu_e' mu_de') t = Ok s' /\
    s <= s'.
Proof.
  intros Le Lde He Hde.
  pose proof (Forall2_length _ _ _ He) as Le'.
  pose proof (Forall2_length _ _ _ Hde) as Lde'.
  destruct (aggregated_strength_matrix mu_e mu_de t Le Lde)
    as (s & Hs & (e & d & a & b & Hc & Ha & Hb & ->) & _).
  destruct (aggregated_strength_matrix mu_e' mu_de' t ltac:(lia) ltac:(lia))
    as (s' & Hs' & _ & Hub).
  exists (py_min a b), s'. split; [done |]. split; [done |].
  destruct (Forall2_lookup_l _ _ _ _ _ He Ha) as (a' & Ha' & Haa).
  destruct (Forall2_lookup_l _ _ _ _ _ Hde Hb) as (b' & Hb' & Hbb).
  pose proof (Hub e d a' b' Hc Ha' Hb') as Hle.
  pose proof (py_min_monotone a a' b b' Haa Hbb). lra.
Qed.

Lemma strengths_follow_degrees_witness :
  exists s s',
    aggregated_strength (fuzzy_matrix [0; 0; 1 # 2; 1 # 2; 0] [0; 1; 0; 0; 0]) NS
      = Ok s /\
    aggregated_strength (fuzzy_matrix [0; 0; 1; 1 # 2; 0] [0; 1; 0; 1 # 4; 0]) NS
      = Ok s' /\
    s <= s'.
Proof.
  apply strengths_follow_degrees; [reflexivity | reflexivity | |];
    repeat constructor; lra.
Defined.

(** ** Exceptions of [membership_f] *)

Lemma membership_f_Raise_first `{SkFuzzy} (mf : string) (x abc : list Q)
    (a b c d : Q) (abcd : list Q) (i : nat) (k : string) (e : exn) :
  family_display x abc a b c d abcd !! i = Some (k, Raise e) ->
  (forall j kv, (j < i)%nat -> family_display x abc a b c d abcd !! j = Some kv ->
     exists v, kv.2 = Ok v) ->
  membership_f mf x abc a b c d abcd = Raise e.
Proof.
  intros Hi Hpre. unfold membership_f.
  rewrite (comprehension_first_Raise (fun kv => v ← kv.2; Ok (kv.1, v))
             (family_display x abc a b c d abcd) i (k, Raise e) e Hi eq_refl);
    [reflexivity |].
  intros j [k' o] Hj Hkv. destruct (Hpre j (k', o) Hj Hkv) as [v Hv].
  simpl in *. rewrite Hv. by eexists.
Qed.

Lemma membership_f_KeyError `{SkFuzzy} (mf : string) (x abc : list Q)
    (a b c d : Q) (abcd : list Q) :
  Forall (fun kv => exists v, kv.2 = Ok v) (family_display x abc a b c d abcd) ->
  (membership_f mf x abc a b c d abcd = Raise KeyError <->
   mf ∉ ["trimf"; "dsigmf"; "gauss2mf"; "gaussmf"; "gbellmf"; "piecemf"; "pimf";
         "psigmf"; "sigmf"; "smf"; "trapmf"; "zmf"]).
Proof.
  intros Hall. unfold membership_f.
  pose proof (display_keys x abc a b c d abcd) as Hkeys.
  set (D := family_display x abc a b c d abcd) in *. clearbody D.
  destruct (comprehension_total (fun kv => v ← kv.2; Ok (kv.1, v)) D)
    as [entries HD].
  { eapply Forall_impl; [exact Hall |]. intros [k o] [v Hv]. simpl in *.
    rewrite Hv. by eexists. }
  rewrite HD. simpl. apply display_evaluated in HD. subst D.
  rewrite <- list_fmap_compose in Hkeys.
  assert (entries.*1 = fst ∘ entry_call <$> entries) as Hfst by reflexivity.
  rewrite <- Hkeys, <- Hfst.
  destruct (list_to_map entries !! mf) as [y |] eqn:E.
  - split; [discriminate |]. intros Hnot. exfalso. apply Hnot.
    apply elem_of_list_to_map_2 in E.
    apply list_elem_of_fmap. by exists (mf, y).
  - split; [intros _ | reflexivity]. by apply not_elem_of_list_to_map.
Qed.

(** X9.  A family name that is not one of the twelve keys raises
    [KeyError], but only after all twelve family functions have been
    called and have returned: when they all return, [membership_f(mf, x,
    abc)] raises [KeyError] exactly for the names outside the twelve. *)
Theorem membership_f_unknown_family (F : SkFuzzy) (mf : string) (x abc : list Q) :
  Forall (fun kv => exists v, kv.2 = Ok v)
         (family_display x abc 1 2 3 4 [0; 0; 0; 0]) ->
  (membership_f_call mf x abc = Raise KeyError <->
   mf ∉ ["trimf"; "dsigmf"; "gauss2mf"; "gaussmf"; "gbellmf"; "piecemf"; "pimf";
         "psigmf"; "sigmf"; "smf"; "trapmf"; "zmf"]).
Proof. exact (membership_f_KeyError mf x abc 1 2 3 4 [0; 0; 0; 0]). Qed.

Lemma membership_f_unknown_family_witness :
  @membership_f_call rational_fuzz "triangle" [-1; 0; 1] [-1; 0; 1]
    = Raise KeyError.
Proof.
  apply (proj2 (membership_f_unknown_family rational_fuzz "triangle"
                  [-1; 0; 1] [-1; 0; 1]
                  ltac:(repeat constructor; by eexists))).
  apply (bool_decide_unpack _). by vm_compute.
Defined.

(** X10.  The exception of [membership_f] is that of the first family
    function, in source order, that raises: if the call at position [i]
    of the display raises [e] and the calls before it return, the whole
    call raises [e], whatever [mf] is and whether or not it is a key. *)
Theorem membership_f_first_exception (F : SkFuzzy) (mf : string)
    (x abc : list Q) (i : nat) (k : string) (e : exn) :
  family_display x abc 1 2 3 4 [0; 0; 0; 0] !! i = Some (k, Raise e) ->
  (forall j kv, (j < i)%nat ->
     family_display x abc 1 2 3 4 [0; 0; 0; 0] !! j = Some kv ->
     exists v, kv.2 = Ok v) ->
  membership_f_call mf x abc = Raise e.
Proof. exact (membership_f_Raise_first mf x abc 1 2 3 4 [0; 0; 0; 0] i k e). Qed.

Lemma membership_f_first_exception_witness :
  @membership_f_call rational_fuzz "gaussmf" [-1; 0; 1] [0; 1]
    = Raise (LibraryError "abc parameter must have exactly three elements").
Proof.
  apply (membership_f_first_exception rational_fuzz "gaussmf" [-1; 0; 1] [0; 1]
           0 "trimf").
  - reflexivity.
  - intros j kv Hj. lia.
Defined.

(** ** What a successful [run] required and what it hands on *)


Lemma curves_of_variable_Ok `{SkFuzzy} (self : Fuzzy) (ins : list (list Q))
    (i : nat) (curves : list (list Q)) :
  curves_of_variable self ins i = Ok curves ->
  exists ssets,
    f_ssets self !! i = Some ssets /\ length curves = length ssets /\
    (ssets <> [] -> exists mf x, mf_types self !! i = Some mf /\ ins !! i = Some x).
Proof.
  unfold curves_of_variable. intros Hc.
  apply bind_Ok_inv in Hc as (ssets & Hs & Hc). apply index_Ok in Hs.
  exists ssets. split; [done |]. split; [by eapply comprehension_length |].
  intros Hne. destruct ssets as [| a ssets]; [done |]. simpl in Hc.
  apply bind_Ok_inv in Hc as (curve & Hc & _).
  apply bind_Ok_inv in Hc as (mf & Hmf & Hc).
  apply bind_Ok_inv in Hc as (x & Hx & _).
  apply index_Ok in Hmf, Hx. eauto.
Qed.

Lemma run_aggregate_inv `{SkFuzzy} (self : Fuzzy) (fr : frame) :
  run_aggregate self = Ok fr ->
  exists b0 b1 b2 in0 in1,
    domains (io_ranges self) = Ok (inputs fr) /\
    curves_of_variable self (inputs fr) 0 = Ok b0 /\
    curves_of_variable self (inputs fr) 1 = Ok b1 /\
    curves_of_variable self (inputs fr) 2 = Ok b2 /\
    inputs fr !! 0%nat = Some in0 /\ inputs fr !! 1%nat = Some in1 /\
    fuzzify in0 b0 (error self) = Ok (muval_e fr) /\
    fuzzify in1 b1 (delta_e self) = Ok (muval_de fr) /\
    f_mat fr = fuzzy_matrix (muval_e fr) (muval_de fr) /\
    rule_base [b0; b1; b2] (f_mat fr) = Ok (b_store fr, output fr) /\
    fuse (output fr) = Ok (aggregated fr).
Proof.
  unfold run_aggregate. intros Hr.
  apply bind_Ok_inv in Hr as (ins & Hins & Hr).
  apply bind_Ok_inv in Hr as (b & Hb & Hr).
  apply bind_Ok_inv in Hr as (in0 & Hin0 & Hr).
  apply bind_Ok_inv in Hr as (b0 & Hb0 & Hr).
  apply bind_Ok_inv in Hr as (mu_e & He & Hr).
  apply bind_Ok_inv in Hr as (in1 & Hin1 & Hr).
  apply bind_Ok_inv in Hr as (b1 & Hb1 & Hr).
  apply bind_Ok_inv in Hr as (mu_de & Hde & Hr).
  apply bind_Ok_inv in Hr as ([b' out] & Hrb & Hr).
  apply bind_Ok_inv in Hr as (agg & Hagg & [= <-]). simpl in *.
  apply index_Ok in Hin0, Hin1, Hb0, Hb1.
  simpl in Hb.
  apply bind_Ok_inv in Hb as (x0 & Hx0 & Hb).
  apply bind_Ok_inv in Hb as (rest & Hb & [= <-]).
  apply bind_Ok_inv in Hb as (x1 & Hx1 & Hb).
  apply bind_Ok_inv in Hb as (rest' & Hb & [= <-]).
  apply bind_Ok_inv in Hb as (x2 & Hx2 & [= <-]).
  simpl in Hb0, Hb1. injection Hb0 as <-. injection Hb1 as <-.
  exists x0, x1, x2, in0, in1. by repeat split.
Qed.

(** X3.  [run] can only return when at least three ranges and three
    family names are configured and each of the three variables has at
    least five terms: the rules subscript the fifth degree of both
    inputs and the fifth output curve. *)
Theorem run_needs_five_terms (F : SkFuzzy) (self : Fuzzy) (v : value) :
  (run self).2 = Ok v ->
  (3 <= length (io_ranges self))%nat /\
  (3 <= length (mf_types self))%nat /\
  exists s0 s1 s2,
    f_ssets self !! 0%nat = Some s0 /\ (5 <= length s0)%nat /\
    f_ssets self !! 1%nat = Some s1 /\ (5 <= length s1)%nat /\
    f_ssets self !! 2%nat = Some s2 /\ (5 <= length s2)%nat.
Proof.
  unfold run. intros Hrun.
  destruct (run_aggregate self) as [fr | e] eqn:Hfr; [| discriminate].
  clear Hrun.
  destruct (run_aggregate_inv self fr Hfr)
    as (b0 & b1 & b2 & in0 & in1 & Hins & H0 & H1 & H2 & _ & _ & He & Hde &
        Hm & Hrb & _).
  destruct (rule_base_needs _ _ _ Hrb) as [Hcells (old & Hold & Hlen)].
  simpl in Hold. injection Hold as <-.
  destruct (Hcells 4%nat 4%nat ltac:(lia) ltac:(lia)) as [c Hc].
  rewrite Hm, cell_fuzzy_matrix in Hc.
  destruct (muval_de fr !! 4%nat) eqn:Ede; [| discriminate].
  destruct (muval_e fr !! 4%nat) eqn:Ee; [| discriminate].
  apply lookup_lt_Some in Ede, Ee.
  apply comprehension_length in He, Hde.
  destruct (curves_of_variable_Ok self _ 0 b0 H0) as (s0 & Hs0 & L0 & _).
  destruct (curves_of_variable_Ok self _ 1 b1 H1) as (s1 & Hs1 & L1 & _).
  destruct (curves_of_variable_Ok self _ 2 b2 H2) as (s2 & Hs2 & L2 & N2).
  destruct N2 as (mf & x & Hmf & Hx); [intros ->; simpl in L2; lia |].
  apply lookup_lt_Some in Hmf, Hx.
  apply comprehension_length in Hins.
  split; [lia |]. split; [lia |].
  exists s0, s1, s2. repeat split; (done || lia).
Qed.

Lemma run_needs_five_terms_witness :
  (3 <= length (io_ranges (sample_controller 0 0)))%nat.
Proof.
  destruct (run_needs_five_terms rational_fuzz (sample_controller 0 0) PyNone)
    as [H _]; [| exact H].
  vm_compute. reflexivity.
Defined.



(** ** No rule is lost *)

(** X15.  Every rule reaches an output term: for two vectors of five
    degrees and any pair of an error degree and a delta-error degree,
    the term whose [max] reads the cell of that pair has an aggregated
    strength of at least the minimum of the two degrees; so when both
    degrees are positive, some output term has a positive strength. *)
Theorem every_rule_counts (mu_e mu_de : list Q) (e d : nat) (a b : Q) :
  length mu_e = 5%nat -> length mu_de = 5%nat ->
  mu_e !! e = Some a -> mu_de !! d = Some b ->
  exists t s,
    (d, e) ∈ output_cells t /\
    aggregated_strength (fuzzy_matrix mu_e mu_de) t = Ok s /\
    py_min a b <= s /\
    (0 < a -> 0 < b -> 0 < s).
Proof.
  intros Le Lde Ha Hb.
  pose proof (lookup_lt_Some _ _ _ Ha) as He5.
  pose proof (lookup_lt_Some _ _ _ Hb) as Hd5.
  destruct (cell_has_term d e ltac:(lia) ltac:(lia)) as [t Ht].
  destruct (aggregated_strength_matrix mu_e mu_de t Le Lde) as (s & Hs & _ & Hub).
  exists t, s. split; [done |]. split; [done |].
  assert (py_min a b <= s) as Hle.
  { apply (Hub e d a b); [| done | done].
    rewrite spec_table_swap in Ht.
    apply list_elem_of_fmap in Ht as ([e' d'] & [= -> ->] & Ht). exact Ht. }
  split; [done |]. intros Ha0 Hb0.
  destruct (py_min_cases a b) as [[E _] | [E _]]; rewrite E in Hle; lra.
Qed.

Lemma every_rule_counts_witness :
  exists t s,
    aggregated_strength (fuzzy_matrix [0; 0; 1 # 2; 1 # 2; 0] [0; 1; 0; 0; 0]) t
      = Ok s /\
    0 < s.
Proof.
  destruct (every_rule_counts [0; 0; 1 # 2; 1 # 2; 0] [0; 1; 0; 0; 0] 2 1 (1 # 2) 1
              eq_refl eq_refl eq_refl eq_refl) as (t & s & _ & Hs & _ & Hpos).
  exists t, s. split; [exact Hs |]. apply Hpos; lra.
Defined.
